(** * uvloop/handles/transport.pyx : the stream transport, embedded and verified

    [UVTransport] sits between a stream handle ([UVStream], its base class)
    and an asyncio protocol.  The class is embedded as a record of its
    attributes together with the pieces of the outside world its methods
    touch: the base stream handle, the loop's queue of ready handles and a
    chronological log of everything the transport does to its collaborators
    (protocol callbacks, handle operations, listener attach/detach, reports
    to the loop's exception handler).

    Methods are written in a small state-and-exception monad so that each
    definition follows the Cython text line by line: an exception aborts the
    rest of the method but keeps the mutations made so far, [try/except
    Exception] and [try/finally] are combinators.

    Modelling boundary: a protocol callback is represented by what it
    returns or raises, as a function of the log so far.  Calls that a
    callback makes back into the transport are operations of their own in
    the operation sequence; they are not nested inside the callback. *)

From Stdlib Require Import ZArith NArith List String Bool Lia.
Import ListNotations.
Open Scope string_scope.
Open Scope list_scope.
Open Scope Z_scope.

(** ** Data *)

Definition bytes := list Byte.byte.

(** Python exceptions that the module raises, tests for, or receives from
    its collaborators.  [KeyboardInterrupt] stands for the exceptions that
    derive from [BaseException] only, which [except Exception] lets
    through. *)
Inductive Exn : Type :=
| RuntimeError (msg : string)
| ValueError (high low : Z)
| OverflowError
| AttributeError
| TypeError
| BrokenPipeError
| ConnectionResetError
| ConnectionAbortedError
| OSError (errno : Z)
| ApplicationError (tag : nat)
| KeyboardInterrupt.

Definition is_Exception (e : Exn) : bool :=
  match e with
  | KeyboardInterrupt => false
  | _ => true
  end.

(** [isinstance(exc, (BrokenPipeError, ConnectionResetError,
    ConnectionAbortedError))] *)
Definition is_peer_termination (e : Exn) : bool :=
  match e with
  | BrokenPipeError | ConnectionResetError | ConnectionAbortedError => true
  | _ => false
  end.

Inductive Outcome (A : Type) : Type :=
| Return (a : A)
| Raise (e : Exn).
Arguments Return {A} a.
Arguments Raise {A} e.

(** The two kinds of handle the transport hands to [loop._call_soon_handle]:
    a [MethodHandle] on [_call_connection_made] and a [MethodHandle1] on
    [_call_connection_lost] with its argument. *)
Inductive Handle : Type :=
| MethodHandle_call_connection_made
| MethodHandle1_call_connection_lost (exc : option Exn).

(** A listener object, known by identity. *)
Definition Server := nat.

Inductive Event : Type :=
(* protocol callbacks *)
| ConnectionMade
| DataReceived (buf : bytes)
| EofReceived
| PauseWriting
| ResumeWriting
| ConnectionLost (exc : option Exn)
(* loop *)
| CallSoon (h : Handle)
| ExceptionHandler (message : string) (exc : Exn)
(* stream handle *)
| HWrite (data : bytes)
| HStartReading
| HStopReading
| HShutdown
| HClose
(* listener *)
| SrvAttach (srv : Server)
| SrvDetach (srv : Server).

(** The protocol handler: each callback is given by its outcome, which may
    depend on everything that happened before the call. *)
Record Protocol : Type := mkProtocol {
  connection_made : list Event -> Outcome unit;
  data_received : bytes -> list Event -> Outcome unit;
  eof_received : list Event -> Outcome bool;
  pause_writing : list Event -> Outcome unit;
  resume_writing : list Event -> Outcome unit;
  connection_lost : option Exn -> list Event -> Outcome unit
}.

(** The transport object and its surroundings.  The attribute
    declarations (the .pxd file) are not part of this module: flags are
    booleans, [_conn_lost] is a C [uint32_t] counter that starts at 0 and
    is changed by [+= 1] only (see [incr_uint32]: the addition wraps from
    2^32 - 1 back to 0), the thresholds are integers.  The state of the base
    classes is what their contract exposes: whether the handle was
    released, how many bytes are queued for writing, whether the handle is
    reading. *)
Record World : Type := mkWorld {
  (* cdef attributes of UVTransport *)
  _protocol : option Protocol;
  _protocol_data_received : option Protocol;
  _protocol_connected : bool;
  _protocol_paused : bool;
  _eof : bool;
  _closing : bool;
  _conn_lost : N;
  _flow_control_enabled : bool;
  _high_water : Z;
  _low_water : Z;
  _server : option Server;
  (* base classes UVStream / UVHandle *)
  _closed : bool;
  write_buffer_size : N;
  reading : bool;
  (* the loop's ready queue and the observable history *)
  ready : list Handle;
  log : list Event
}.

Definition set_protocol v w :=
  mkWorld v (_protocol_data_received w) (_protocol_connected w)
    (_protocol_paused w) (_eof w) (_closing w) (_conn_lost w)
    (_flow_control_enabled w) (_high_water w) (_low_water w) (_server w)
    (_closed w) (write_buffer_size w) (reading w) (ready w) (log w).

Definition set_protocol_data_received v w :=
  mkWorld (_protocol w) v (_protocol_connected w)
    (_protocol_paused w) (_eof w) (_closing w) (_conn_lost w)
    (_flow_control_enabled w) (_high_water w) (_low_water w) (_server w)
    (_closed w) (write_buffer_size w) (reading w) (ready w) (log w).

Definition set_protocol_connected v w :=
  mkWorld (_protocol w) (_protocol_data_received w) v
    (_protocol_paused w) (_eof w) (_closing w) (_conn_lost w)
    (_flow_control_enabled w) (_high_water w) (_low_water w) (_server w)
    (_closed w) (write_buffer_size w) (reading w) (ready w) (log w).

Definition set_protocol_paused v w :=
  mkWorld (_protocol w) (_protocol_data_received w) (_protocol_connected w)
    v (_eof w) (_closing w) (_conn_lost w)
    (_flow_control_enabled w) (_high_water w) (_low_water w) (_server w)
    (_closed w) (write_buffer_size w) (reading w) (ready w) (log w).

Definition set_eof v w :=
  mkWorld (_protocol w) (_protocol_data_received w) (_protocol_connected w)
    (_protocol_paused w) v (_closing w) (_conn_lost w)
    (_flow_control_enabled w) (_high_water w) (_low_water w) (_server w)
    (_closed w) (write_buffer_size w) (reading w) (ready w) (log w).

Definition set_closing v w :=
  mkWorld (_protocol w) (_protocol_data_received w) (_protocol_connected w)
    (_protocol_paused w) (_eof w) v (_conn_lost w)
    (_flow_control_enabled w) (_high_water w) (_low_water w) (_server w)
    (_closed w) (write_buffer_size w) (reading w) (ready w) (log w).

Definition set_conn_lost v w :=
  mkWorld (_protocol w) (_protocol_data_received w) (_protocol_connected w)
    (_protocol_paused w) (_eof w) (_closing w) v
    (_flow_control_enabled w) (_high_water w) (_low_water w) (_server w)
    (_closed w) (write_buffer_size w) (reading w) (ready w) (log w).

Definition set_high_water v w :=
  mkWorld (_protocol w) (_protocol_data_received w) (_protocol_connected w)
    (_protocol_paused w) (_eof w) (_closing w) (_conn_lost w)
    (_flow_control_enabled w) v (_low_water w) (_server w)
    (_closed w) (write_buffer_size w) (reading w) (ready w) (log w).

Definition set_low_water v w :=
  mkWorld (_protocol w) (_protocol_data_received w) (_protocol_connected w)
    (_protocol_paused w) (_eof w) (_closing w) (_conn_lost w)
    (_flow_control_enabled w) (_high_water w) v (_server w)
    (_closed w) (write_buffer_size w) (reading w) (ready w) (log w).

Definition set_server v w :=
  mkWorld (_protocol w) (_protocol_data_received w) (_protocol_connected w)
    (_protocol_paused w) (_eof w) (_closing w) (_conn_lost w)
    (_flow_control_enabled w) (_high_water w) (_low_water w) v
    (_closed w) (write_buffer_size w) (reading w) (ready w) (log w).

Definition set_closed v w :=
  mkWorld (_protocol w) (_protocol_data_received w) (_protocol_connected w)
    (_protocol_paused w) (_eof w) (_closing w) (_conn_lost w)
    (_flow_control_enabled w) (_high_water w) (_low_water w) (_server w)
    v (write_buffer_size w) (reading w) (ready w) (log w).

Definition set_write_buffer_size v w :=
  mkWorld (_protocol w) (_protocol_data_received w) (_protocol_connected w)
    (_protocol_paused w) (_eof w) (_closing w) (_conn_lost w)
    (_flow_control_enabled w) (_high_water w) (_low_water w) (_server w)
    (_closed w) v (reading w) (ready w) (log w).

Definition set_reading v w :=
  mkWorld (_protocol w) (_protocol_data_received w) (_protocol_connected w)
    (_protocol_paused w) (_eof w) (_closing w) (_conn_lost w)
    (_flow_control_enabled w) (_high_water w) (_low_water w) (_server w)
    (_closed w) (write_buffer_size w) v (ready w) (log w).

Definition set_ready v w :=
  mkWorld (_protocol w) (_protocol_data_received w) (_protocol_connected w)
    (_protocol_paused w) (_eof w) (_closing w) (_conn_lost w)
    (_flow_control_enabled w) (_high_water w) (_low_water w) (_server w)
    (_closed w) (write_buffer_size w) (reading w) v (log w).

Definition set_log v w :=
  mkWorld (_protocol w) (_protocol_data_received w) (_protocol_connected w)
    (_protocol_paused w) (_eof w) (_closing w) (_conn_lost w)
    (_flow_control_enabled w) (_high_water w) (_low_water w) (_server w)
    (_closed w) (write_buffer_size w) (reading w) (ready w) v.

(** ** The monad of methods *)

Definition M (A : Type) : Type := World -> Outcome A * World.

Definition ret {A} (a : A) : M A := fun w => (Return a, w).

Definition raise {A} (e : Exn) : M A := fun w => (Raise e, w).

Definition bind {A B} (m : M A) (k : A -> M B) : M B :=
  fun w =>
    match m w with
    | (Return a, w') => k a w'
    | (Raise e, w') => (Raise e, w')
    end.

Notation "x <- m ;; k" := (bind m (fun x => k))
  (at level 61, m at next level, right associativity).
Notation "m ;; k" := (bind m (fun _ => k))
  (at level 61, right associativity).

Definition gets {A} (f : World -> A) : M A := fun w => (Return (f w), w).

Definition modify (f : World -> World) : M unit := fun w => (Return tt, f w).

(** [try: body / except Exception as exc: handler exc] *)
Definition try_except_Exception (body : M unit) (handler : Exn -> M unit)
  : M unit :=
  fun w =>
    match body w with
    | (Return a, w') => (Return a, w')
    | (Raise e, w') =>
        if is_Exception e then handler e w' else (Raise e, w')
    end.

(** [try: body / finally: final]: [final] always runs; the outcome of
    [body] is kept unless [final] itself raises. *)
Definition try_finally {A} (body : M A) (final : M unit) : M A :=
  fun w =>
    match body w with
    | (r, w') =>
        match final w' with
        | (Return _, w'') => (r, w'')
        | (Raise e, w'') => (Raise e, w'')
        end
    end.

Definition exec {A} (m : M A) (w : World) : World := snd (m w).

Definition result {A} (m : M A) (w : World) : Outcome A := fst (m w).

Definition emit (ev : Event) : M unit :=
  modify (fun w => set_log (log w ++ [ev]) w).

(** ** Collaborators *)

(** Entering a callback of protocol [p]: the call is logged and returns or
    raises as the protocol decides from the history before the call.  The
    callback does not touch the transport in this step: a call it makes
    back into the transport ([abort()] or [set_write_buffer_limits()] from
    inside [pause_writing], say) is not nested here.  What is proved about
    a single method call that reaches a callback is therefore about
    callbacks that make no such call; where that would matter the
    statement carries a hypothesis under which no callback is invoked. *)
Definition invoke {A} (p : Protocol) (ev : Event)
  (method : Protocol -> list Event -> Outcome A) : M A :=
  fun w => (method p (log w), set_log (log w ++ [ev]) w).

(** [self._protocol.<method>(...)]: attribute lookup on [None] raises
    [AttributeError]. *)
Definition call_protocol {A} (ev : Event)
  (method : Protocol -> list Event -> Outcome A) : M A :=
  protocol <- gets _protocol ;;
  match protocol with
  | None => raise AttributeError
  | Some p => invoke p ev method
  end.

(** Modelled from the spec: the loop contract, [call_soon(callable)]
    deferred scheduling (the loop is not part of this module): the handle
    is appended to the queue of ready handles, nothing runs now. *)
Definition _call_soon_handle (h : Handle) : M unit :=
  modify (fun w => set_ready (ready w ++ [h]) w) ;;
  emit (CallSoon h).

(** Modelled from the spec: the loop contract,
    [call_exception_handler(context_mapping)], process-wide error
    reporting; the context is kept as its message and exception. *)
Definition call_exception_handler (message : string) (exc : Exn) : M unit :=
  emit (ExceptionHandler message exc).

(** Modelled from the spec: the stream-handle contract (base class
    UVStream, not part of this module).  [_write(bytes)] enqueues on the
    pending-write queue, whose total is what [_get_write_buffer_size()]
    reports. *)
Definition UVStream__write (data : bytes) : M unit :=
  modify (fun w =>
    set_write_buffer_size (write_buffer_size w + N.of_nat (List.length data))%N w) ;;
  emit (HWrite data).

(** Modelled from the spec: [_get_write_buffer_size() -> size] of the
    stream-handle contract. *)
Definition _get_write_buffer_size : M N := gets write_buffer_size.

(** Modelled from the spec: [_is_reading() -> bool] of the stream-handle
    contract. *)
Definition _is_reading : M bool := gets reading.

(** Modelled from the spec: [_start_reading()] of the stream-handle
    contract. *)
Definition _start_reading : M unit :=
  modify (set_reading true) ;; emit HStartReading.

(** Modelled from the spec: [_stop_reading()] of the stream-handle
    contract. *)
Definition _stop_reading : M unit :=
  modify (set_reading false) ;; emit HStopReading.

(** Modelled from the spec: the half-close shutdown on the underlying
    handle. *)
Definition _shutdown : M unit := emit HShutdown.

(** Modelled from the spec: releasing the underlying handle; [closed] is
    true once the handle has been released. *)
Definition _close : M unit :=
  modify (set_closed true) ;; emit HClose.

(** Modelled from the spec: the listener tracks its active connections;
    a transport attaches once when it is given its server and detaches on
    teardown. *)
Definition Server__attach (srv : Server) : M unit := emit (SrvAttach srv).

(** Modelled from the spec: detaching decrements the listener's count of
    active connections. *)
Definition Server__detach (srv : Server) : M unit := emit (SrvDetach srv).

(** Conversion of a Python int to the C [int] parameters of
    [_set_write_buffer_limits]: out of range raises [OverflowError]. *)
Definition INT_MIN : Z := - 2 ^ 31.
Definition INT_MAX : Z := 2 ^ 31 - 1.

Definition fits_int (z : Z) : bool := (INT_MIN <=? z) && (z <=? INT_MAX).

Definition as_int (z : Z) : M Z :=
  if fits_int z then ret z else raise OverflowError.

(** [self._conn_lost += 1].  The attribute is declared in the .pxd file,
    which is not part of this module, as a C unsigned 32-bit integer
    ([uint32_t]): the addition is modulo 2^32, so the counter goes from
    2^32 - 1 back to 0. *)
Definition UINT32_MODULUS : N := (2 ^ 32)%N.

Definition incr_uint32 (n : N) : N := ((n + 1) mod UINT32_MODULUS)%N.

Arguments incr_uint32 : simpl never.

(** ** UVTransport *)

Section UVTransport.

(** The flow-control constants come from an include file that is not part
    of this module; they are kept abstract. *)
Variable FLOW_CONTROL_HIGH_WATER : Z.
Variable FLOW_CONTROL_LOW_WATER : Z.

(** [__cinit__], on top of a freshly initialised stream handle: open, not
    reading, nothing queued. *)
Definition __cinit__ : World :=
  {| _protocol := None;
     _protocol_data_received := None;
     _protocol_connected := false;
     _protocol_paused := false;
     _eof := false;
     _closing := false;
     _conn_lost := 0%N;
     _flow_control_enabled := true;
     _high_water := FLOW_CONTROL_HIGH_WATER;
     _low_water := FLOW_CONTROL_LOW_WATER;
     _server := None;
     _closed := false;
     write_buffer_size := 0%N;
     reading := false;
     ready := [];
     log := [] |}.

Definition _set_server (server : Server) : M unit :=
  modify (set_server (Some server)) ;;
  Server__attach server.

Definition _set_protocol (protocol : Protocol) : M unit :=
  modify (set_protocol (Some protocol)) ;;
  modify (set_protocol_data_received (Some protocol)).

Definition _maybe_pause_protocol : M unit :=
  enabled <- gets _flow_control_enabled ;;
  if negb enabled then ret tt else
  size <- _get_write_buffer_size ;;
  high_water <- gets _high_water ;;
  if Z.of_N size <=? high_water then ret tt else
  paused <- gets _protocol_paused ;;
  if negb paused then
    modify (set_protocol_paused true) ;;
    try_except_Exception
      (call_protocol PauseWriting pause_writing)
      (fun exc => call_exception_handler "protocol.pause_writing() failed" exc)
  else ret tt.

Definition _maybe_resume_protocol : M unit :=
  enabled <- gets _flow_control_enabled ;;
  if negb enabled then ret tt else
  size <- _get_write_buffer_size ;;
  paused <- gets _protocol_paused ;;
  low_water <- gets _low_water ;;
  if paused && (Z.of_N size <=? low_water) then
    modify (set_protocol_paused false) ;;
    try_except_Exception
      (call_protocol ResumeWriting resume_writing)
      (fun exc => call_exception_handler "protocol.resume_writing() failed" exc)
  else ret tt.

Definition _call_connection_made : M unit :=
  protocol <- gets _protocol ;;
  match protocol with
  | None =>
      raise (RuntimeError "protocol is not set, cannot call connection_made()")
  | Some _ =>
      call_protocol ConnectionMade connection_made ;;
      modify (set_protocol_connected true) ;;
      (* only start reading when connection_made() has been called *)
      _start_reading
  end.

Definition _schedule_call_connection_made : M unit :=
  _call_soon_handle MethodHandle_call_connection_made.

Definition _call_connection_lost (exc : option Exn) : M unit :=
  closed <- gets _closed ;;
  if closed then
    (* The handle is closed -- likely, _call_connection_lost
       was already called before. *)
    ret tt
  else
    try_finally
      (connected <- gets _protocol_connected ;;
       if connected
       then call_protocol (ConnectionLost exc) (fun p => connection_lost p exc)
       else ret tt)
      (modify (set_protocol None) ;;
       modify (set_protocol_data_received None) ;;
       server <- gets _server ;;
       match server with
       | Some srv =>
           Server__detach srv ;;
           modify (set_server None)
       | None => ret tt
       end ;;
       _close).

Definition _schedule_call_connection_lost (exc : option Exn) : M unit :=
  _call_soon_handle (MethodHandle1_call_connection_lost exc).

Definition _force_close (exc : option Exn) : M unit :=
  conn_lost <- gets _conn_lost ;;
  closed <- gets _closed ;;
  if negb (conn_lost =? 0)%N || closed then ret tt else
  closing <- gets _closing ;;
  (if negb closing then
     modify (set_closing true) ;;
     _stop_reading
   else ret tt) ;;
  modify (fun w => set_conn_lost (incr_uint32 (_conn_lost w)) w) ;;
  _schedule_call_connection_lost None.

Definition _fatal_error (exc : Exn) (throw : bool) : M unit :=
  (if negb (is_peer_termination exc) then
     call_exception_handler "Fatal error on transport" exc
   else ret tt) ;;
  _force_close (Some exc).

(** *** Public API *)

Definition abort : M unit := _force_close None.

Definition close : M unit :=
  closing <- gets _closing ;;
  closed <- gets _closed ;;
  if closing || closed then ret tt else
  modify (set_closing true) ;;
  _stop_reading ;;
  size <- _get_write_buffer_size ;;
  if (size =? 0)%N then
    (* The write buffer is empty *)
    modify (fun w => set_conn_lost (incr_uint32 (_conn_lost w)) w) ;;
    _schedule_call_connection_lost None
  else ret tt.

Definition is_closing : M bool := gets _closing.

(** *** Stream-handle hooks *)

Definition _on_accept : M unit := _schedule_call_connection_made.

Definition _on_read (buf : bytes) : M unit :=
  method <- gets _protocol_data_received ;;
  match method with
  | None => raise TypeError
  | Some p => invoke p (DataReceived buf) (fun p => data_received p buf)
  end.

Definition _on_eof : M unit :=
  keep_open <- call_protocol EofReceived eof_received ;;
  if keep_open : bool then _stop_reading else close.

Definition _write (data : bytes) : M unit :=
  UVStream__write data ;;
  _maybe_pause_protocol.

Definition _on_write : M unit :=
  _maybe_resume_protocol ;;
  size <- _get_write_buffer_size ;;
  if (size =? 0)%N then
    closing <- gets _closing ;;
    if closing then _call_connection_lost None
    else
      eof <- gets _eof ;;
      if eof then _shutdown else ret tt
  else ret tt.

Definition _set_write_buffer_limits (high low : Z) : M unit :=
  let high :=
    if high =? -1 then
      if low =? -1 then FLOW_CONTROL_HIGH_WATER
      else FLOW_CONTROL_LOW_WATER
    else high in
  let low := if low =? -1 then high / 4 else low in
  if negb ((high >=? low) && (low >=? 0)) then
    raise (ValueError high low)
  else
    modify (set_high_water high) ;;
    modify (set_low_water low) ;;
    _maybe_pause_protocol ;;
    _maybe_resume_protocol.

Definition write (buf : bytes) : M unit :=
  eof <- gets _eof ;;
  if eof then raise (RuntimeError "Cannot call write() after write_eof()") else
  match buf with
  | [] => ret tt
  | _ :: _ =>
      conn_lost <- gets _conn_lost ;;
      if negb (conn_lost =? 0)%N then
        modify (set_conn_lost (incr_uint32 conn_lost))
      else
        _write buf ;;
        _maybe_pause_protocol
  end.

Fixpoint writelines (bufs : list bytes) : M unit :=
  match bufs with
  | [] => ret tt
  | buf :: rest => write buf ;; writelines rest
  end.

Definition write_eof : M unit :=
  eof <- gets _eof ;;
  if eof then ret tt else
  modify (set_eof true) ;;
  size <- _get_write_buffer_size ;;
  if (size =? 0)%N then _shutdown else ret tt.

Definition can_write_eof : M bool := ret true.

Definition pause_reading : M unit :=
  closing <- gets _closing ;;
  if closing then raise (RuntimeError "Cannot pause_reading() when closing") else
  is_reading <- _is_reading ;;
  if negb is_reading then raise (RuntimeError "Already paused") else
  _stop_reading.

Definition resume_reading : M unit :=
  is_reading <- _is_reading ;;
  if is_reading then raise (RuntimeError "Not paused") else
  closing <- gets _closing ;;
  if closing then ret tt else
  _start_reading.

Definition get_write_buffer_size : M N := _get_write_buffer_size.

Definition set_write_buffer_limits (high low : option Z) : M unit :=
  let high := match high with None => -1 | Some h => h end in
  let low := match low with None => -1 | Some l => l end in
  high <- as_int high ;;
  low <- as_int low ;;
  _set_write_buffer_limits high low.

Definition get_write_buffer_limits : M (Z * Z) :=
  low_water <- gets _low_water ;;
  high_water <- gets _high_water ;;
  ret (low_water, high_water).

(** ** Operation sequences

    Everything that can happen to one transport: the wiring done by the
    code that creates it, the hooks called by the stream handle, the loop
    running its next ready handle, and the public API. *)

Inductive Op : Type :=
| Do_set_protocol (protocol : Protocol)
| Do_set_server (server : Server)
| On_accept
| On_read (buf : bytes)
| On_eof
| On_write
| Fatal_error (exc : Exn) (throw : bool)
| Flushed (n : N)
| Handle_closed
| Run_ready
| Abort
| Close
| Is_closing
| Write (buf : bytes)
| Writelines (bufs : list bytes)
| Write_eof
| Can_write_eof
| Pause_reading
| Resume_reading
| Get_write_buffer_size
| Set_write_buffer_limits (high low : option Z)
| Get_write_buffer_limits.

(** Modelled from the spec: buffered size is what was enqueued minus what
    the handle has flushed. *)
Definition flushed (n : N) : M unit :=
  modify (fun w => set_write_buffer_size (write_buffer_size w - n)%N w).

Definition run_handle (h : Handle) : M unit :=
  match h with
  | MethodHandle_call_connection_made => _call_connection_made
  | MethodHandle1_call_connection_lost exc => _call_connection_lost exc
  end.

(** Modelled from the spec: the loop runs deferred calls in the order they
    were scheduled, and a fault in one never crashes the loop: it goes to
    the exception handler. *)
Definition run_ready : M unit :=
  queue <- gets ready ;;
  match queue with
  | [] => ret tt
  | h :: rest =>
      modify (set_ready rest) ;;
      try_except_Exception (run_handle h)
        (fun exc => call_exception_handler "Exception in callback" exc)
  end.

Definition ignore {A} (m : M A) : M unit := m ;; ret tt.

Definition perform (op : Op) : M unit :=
  match op with
  | Do_set_protocol protocol => _set_protocol protocol
  | Do_set_server server => _set_server server
  | On_accept => _on_accept
  | On_read buf => _on_read buf
  | On_eof => _on_eof
  | On_write => _on_write
  | Fatal_error exc throw => _fatal_error exc throw
  | Flushed n => flushed n
  | Handle_closed => _close
  | Run_ready => run_ready
  | Abort => abort
  | Close => close
  | Is_closing => ignore is_closing
  | Write buf => write buf
  | Writelines bufs => writelines bufs
  | Write_eof => write_eof
  | Can_write_eof => ignore can_write_eof
  | Pause_reading => pause_reading
  | Resume_reading => resume_reading
  | Get_write_buffer_size => ignore get_write_buffer_size
  | Set_write_buffer_limits high low => set_write_buffer_limits high low
  | Get_write_buffer_limits => ignore get_write_buffer_limits
  end.

(** One operation; an exception that escapes goes to whoever called. *)
Definition step (w : World) (op : Op) : World := exec (perform op) w.

Definition run (ops : list Op) (w : World) : World := fold_left step ops w.

End UVTransport.

(** ** Vocabulary of the properties *)

(** The pause and resume conditions, as the specification words them. *)
Definition pause_due (w : World) : bool :=
  _flow_control_enabled w
  && (_high_water w <? Z.of_N (write_buffer_size w))
  && negb (_protocol_paused w).

Definition resume_due (w : World) : bool :=
  _flow_control_enabled w
  && _protocol_paused w
  && (Z.of_N (write_buffer_size w) <=? _low_water w).

(** What the exception-isolation policy leaves in the log after a callback
    that returned or raised. *)
Definition isolated (message : string) (r : Outcome unit) : list Event :=
  match r with
  | Return _ => []
  | Raise e => if is_Exception e then [ExceptionHandler message e] else []
  end.

(** What the caller of a callback wrapped in [try/except Exception]
    gets: the wrapper returns normally unless the callback raised
    something that does not derive from [Exception]. *)
Definition uncaught (r : Outcome unit) : Outcome unit :=
  match r with
  | Return _ => Return tt
  | Raise e => if is_Exception e then Return tt else Raise e
  end.

Definition is_lost (ev : Event) : bool :=
  match ev with ConnectionLost _ => true | _ => false end.

Definition is_detach (ev : Event) : bool :=
  match ev with SrvDetach _ => true | _ => false end.

Definition is_attach_of (srv : Server) (ev : Event) : bool :=
  match ev with SrvAttach s => Nat.eqb s srv | _ => false end.

Definition is_detach_of (srv : Server) (ev : Event) : bool :=
  match ev with SrvDetach s => Nat.eqb s srv | _ => false end.

Definition is_pause (ev : Event) : bool :=
  match ev with PauseWriting => true | _ => false end.

Definition is_resume (ev : Event) : bool :=
  match ev with ResumeWriting => true | _ => false end.

Definition is_shutdown (ev : Event) : bool :=
  match ev with HShutdown => true | _ => false end.

Definition is_lost_schedule (ev : Event) : bool :=
  match ev with
  | CallSoon (MethodHandle1_call_connection_lost _) => true
  | _ => false
  end.

Definition count (f : Event -> bool) (l : list Event) : nat :=
  List.length (filter f l).
Arguments count : simpl never.

(** Modelled from the spec: the listener's count of active connections,
    as far as this transport moves it: one up for each attach, one down
    for each detach. *)
Definition active_count (srv : Server) (l : list Event) : Z :=
  Z.of_nat (count (is_attach_of srv) l) - Z.of_nat (count (is_detach_of srv) l).

(** An argument of [set_write_buffer_limits] counts as unspecified when it
    is [None], and also when it is the integer -1, which the method uses
    as its own marker for [None]. *)
Definition unspecified (a : option Z) : bool :=
  match a with
  | None => true
  | Some z => z =? -1
  end.

Definition arg_int (a : option Z) : Z :=
  match a with None => -1 | Some z => z end.

(** The thresholds after defaulting, read off lines 63-70 of the source. *)
Definition defaulted_high (HIGH LOW : Z) (high low : option Z) : Z :=
  if unspecified high then
    if unspecified low then HIGH else LOW
  else arg_int high.

Definition defaulted_low (HIGH LOW : Z) (high low : option Z) : Z :=
  if unspecified low then defaulted_high HIGH LOW high low / 4
  else arg_int low.

(** The defaulting as the specification describes it. *)
Definition spec_defaulted_high (HIGH LOW : Z) (high low : option Z) : Z :=
  match high with
  | None => HIGH
  | Some h => h
  end.

Definition spec_defaulted_low (HIGH LOW : Z) (high low : option Z) : Z :=
  match low, high with
  | Some l, _ => l
  | None, Some h => h / 4
  | None, None => LOW
  end.

Definition limits_valid (high low : Z) : Prop := high >= low /\ low >= 0.

(** ** Concrete protocols, constants and scenarios *)

Definition quiet_protocol : Protocol :=
  {| connection_made := fun _ => Return tt;
     data_received := fun _ _ => Return tt;
     eof_received := fun _ => Return false;
     pause_writing := fun _ => Return tt;
     resume_writing := fun _ => Return tt;
     connection_lost := fun _ _ => Return tt |}.

(** A protocol whose [connection_lost] raises. *)
Definition failing_protocol : Protocol :=
  {| connection_made := fun _ => Return tt;
     data_received := fun _ _ => Return tt;
     eof_received := fun _ => Return false;
     pause_writing := fun _ => Return tt;
     resume_writing := fun _ => Return tt;
     connection_lost := fun _ _ => Raise (ApplicationError 0) |}.

Definition HIGH_64K : Z := 65536.
Definition LOW_16K : Z := 16384.

Definition fresh : World := __cinit__ HIGH_64K LOW_16K.

Definition scenario (ops : list Op) : World := run HIGH_64K LOW_16K ops fresh.

Definition one_byte : bytes := [Byte.x61].

(** Binding a quiet protocol, accepting, and letting the loop deliver
    [connection_made]. *)
Definition connect : list Op :=
  [Do_set_protocol quiet_protocol; On_accept; Run_ready].

(** Connected to a listener, protocol's [connection_lost] raises. *)
Definition served_failing : World :=
  scenario [Do_set_server 7%nat; Do_set_protocol failing_protocol;
            On_accept; Run_ready].

(** What the final teardown appends to the log of a transport that is not
    closed yet: the callback if [connection_made] was delivered (and a
    protocol is still bound), the detach from the listener if there is
    one, the release of the handle. *)
Definition teardown_callback (exc : option Exn) (w : World) : list Event :=
  if _protocol_connected w then
    match _protocol w with
    | Some _ => [ConnectionLost exc]
    | None => []
    end
  else [].

Definition teardown_cleanup (w : World) : list Event :=
  match _server w with
  | Some srv => [SrvDetach srv; HClose]
  | None => [HClose]
  end.

Definition torn_down (exc : option Exn) (w : World) : World :=
  set_log (log w ++ teardown_callback exc w ++ teardown_cleanup w)
    (set_closed true
       (set_server None
          (set_protocol_data_received None (set_protocol None w)))).

(** What the callback of the final teardown leaves as the outcome. *)
Definition teardown_outcome (exc : option Exn) (w : World) : Outcome unit :=
  if _protocol_connected w then
    match _protocol w with
    | Some p => connection_lost p exc (log w)
    | None => Raise AttributeError
    end
  else Return tt.

(** [close()] on a transport that is neither closing nor closed, before
    it looks at the write buffer. *)
Definition closing_started (w : World) : World :=
  set_log (log w ++ [HStopReading]) (set_reading false (set_closing true w)).

(** The deferred call of the final teardown, as [close()] and the forced
    path schedule it. *)
Definition lost_scheduled (w : World) : World :=
  set_log (log w ++ [CallSoon (MethodHandle1_call_connection_lost None)])
    (set_ready (ready w ++ [MethodHandle1_call_connection_lost None])
       (set_conn_lost (incr_uint32 (_conn_lost w)) w)).

(** The resume check lets an exception escape only when the callback
    raises one that [except Exception] does not catch. *)
Definition resume_escapes (w : World) : bool :=
  resume_due w &&
  match _protocol w with
  | Some p =>
      match resume_writing p (log w) with
      | Raise e => negb (is_Exception e)
      | Return _ => false
      end
  | None => false
  end.

Definition has_protocol (w : World) : bool :=
  match _protocol w with Some _ => true | None => false end.

(** When the write-completion hook invokes [connection_lost], and when it
    performs the half-close shutdown. *)
Definition lost_on_write (w : World) : bool :=
  negb (resume_escapes w)
  && (write_buffer_size w =? 0)%N
  && _closing w
  && negb (_closed w)
  && _protocol_connected w
  && has_protocol w.

Definition shutdown_on_write (w : World) : bool :=
  negb (resume_escapes w)
  && (write_buffer_size w =? 0)%N
  && negb (_closing w)
  && _eof w.

(** A method preserves a property of the world, whether it returns or
    raises. *)
Definition preserves {A} (I : World -> Prop) (m : M A) : Prop :=
  forall w, I w -> I (exec m w).

(** *** Invariants of operation sequences *)

(** Every [connection_lost] in a log comes after a [connection_made] and
    before any release of the handle. *)
Definition lost_in_order (l : list Event) : Prop :=
  forall l1 exc l2,
    l = l1 ++ ConnectionLost exc :: l2 ->
    In ConnectionMade l1 /\ ~ In HClose l1.

Definition lifecycle_invariant (w : World) : Prop :=
  lost_in_order (log w)
  /\ (count is_lost (log w) <= 1)%nat
  /\ (_closed w = false ->
      count is_lost (log w) = 0%nat /\ ~ In HClose (log w))
  /\ (_protocol_connected w = true -> In ConnectionMade (log w)).

Definition detach_invariant (w : World) : Prop :=
  (count is_detach (log w) <= 1)%nat
  /\ (_closed w = false -> count is_detach (log w) = 0%nat).

Definition lost_with_None (ev : Event) : Prop :=
  match ev with
  | ConnectionLost exc => exc = None
  | CallSoon (MethodHandle1_call_connection_lost exc) => exc = None
  | _ => True
  end.

Definition handle_with_None (h : Handle) : Prop :=
  match h with
  | MethodHandle1_call_connection_lost exc => exc = None
  | MethodHandle_call_connection_made => True
  end.

Definition none_invariant (w : World) : Prop :=
  Forall lost_with_None (log w) /\ Forall handle_with_None (ready w).

(** When the loop, running its next ready handle, invokes
    [connection_lost]. *)
Definition lost_on_run_ready (w : World) : bool :=
  match ready w with
  | MethodHandle1_call_connection_lost _ :: _ =>
      negb (_closed w) && _protocol_connected w && has_protocol w
  | _ => false
  end.

Definition bump (b : bool) : nat := if b then 1%nat else 0%nat.

(** A connected transport with thresholds 100/25 and 150 bytes buffered
    that has not been told to pause yet. *)
Definition flooded : World :=
  set_write_buffer_size 150%N
    (scenario (connect ++ [Set_write_buffer_limits (Some 100) (Some 25)])).

(** A connected transport on which [close()] found one byte still
    buffered, after the handle has flushed that byte: the state in which
    the write-completion hook is about to run. *)
Definition closing_drained : World :=
  scenario (connect ++ [Write one_byte; Close; Flushed 1%N]).

(** The same, with [write_eof()] called after [close()] and before the
    byte is flushed. *)
Definition closing_eof_before : World :=
  scenario (connect ++ [Write one_byte; Close]).

Definition closing_eof_drained : World :=
  scenario (connect ++ [Write one_byte; Close; Write_eof; Flushed 1%N]).

(** The scenario of the specification: thresholds 100/25, 150 bytes
    written, then 130 of them flushed. *)
Definition bytes_150 : bytes := repeat Byte.x61 150.

Definition flood_then_drain : list Op :=
  connect ++ [Set_write_buffer_limits (Some 100) (Some 25);
              Write bytes_150; Flushed 130%N; On_write].

(** A connection torn down by the forced path: connect, fatal error, and
    the loop runs the deferred teardown. *)
Definition fatal_then_run : list Op :=
  connect ++ [Fatal_error (OSError 5) false; Run_ready].

(** What the log of that run holds before [connection_lost]. *)
Definition fatal_prefix : list Event :=
  [CallSoon MethodHandle_call_connection_made; ConnectionMade;
   HStartReading;
   ExceptionHandler "Fatal error on transport" (OSError 5);
   HStopReading;
   CallSoon (MethodHandle1_call_connection_lost None)].

(** A connection torn down by [abort()] on which so many writes were
    discarded since that the loss counter stands at the largest value of
    its type, 2^32 - 1. *)
Definition lost_counter_at_max : World :=
  set_conn_lost (UINT32_MODULUS - 1)%N (scenario (connect ++ [Abort])).
(** ** Vocabulary of the further properties *)

Definition is_hwrite (ev : Event) : bool :=
  match ev with HWrite _ => true | _ => false end.

Definition is_data (ev : Event) : bool :=
  match ev with DataReceived _ => true | _ => false end.

Definition is_made (ev : Event) : bool :=
  match ev with ConnectionMade => true | _ => false end.

Definition is_report (ev : Event) : bool :=
  match ev with ExceptionHandler _ _ => true | _ => false end.

(** Any call into the protocol. *)
Definition is_callback (ev : Event) : bool :=
  match ev with
  | ConnectionMade | DataReceived _ | EofReceived | PauseWriting
  | ResumeWriting | ConnectionLost _ => true
  | _ => false
  end.

Definition is_made_handle (h : Handle) : bool :=
  match h with
  | MethodHandle_call_connection_made => true
  | MethodHandle1_call_connection_lost _ => false
  end.

(** Deferred [connection_made] calls still waiting in the loop's queue. *)
Definition pending_made (queue : list Handle) : nat :=
  List.length (filter is_made_handle queue).

Definition is_accept (op : Op) : bool :=
  match op with On_accept => true | _ => false end.

Definition is_rebind (op : Op) : bool :=
  match op with Do_set_protocol _ => true | _ => false end.

Definition accepts (ops : list Op) : nat := List.length (filter is_accept ops).

Definition is_nonempty (buf : bytes) : bool :=
  match buf with [] => false | _ :: _ => true end.

Definition nonempty_count (bufs : list bytes) : nat :=
  List.length (filter is_nonempty bufs).

Fixpoint total_length (bufs : list bytes) : N :=
  match bufs with
  | [] => 0%N
  | buf :: rest => (N.of_nat (List.length buf) + total_length rest)%N
  end.

(** How many non-empty buffers an operation, and a sequence of
    operations, pass to [write]. *)
Definition writes_of (op : Op) : nat :=
  match op with
  | Write buf => bump (is_nonempty buf)
  | Writelines bufs => nonempty_count bufs
  | _ => 0%nat
  end.

Fixpoint writes_in (ops : list Op) : nat :=
  match ops with
  | [] => 0%nat
  | op :: rest => (writes_of op + writes_in rest)%nat
  end.

(** The pause check cannot fire while [extra] more bytes are enqueued:
    flow control is off, or the protocol is already marked paused, or the
    buffer stays at or below the high-water mark. *)
Definition no_pause_ahead (extra : N) (w : World) : Prop :=
  _flow_control_enabled w = false
  \/ _protocol_paused w = true
  \/ Z.of_N (write_buffer_size w + extra) <= _high_water w.

Definition thresholds_ordered (w : World) : Prop :=
  _high_water w >= _low_water w /\ _low_water w >= 0.

(** Flags that only ever go up. *)
Definition no_going_back (w w' : World) : Prop :=
  (_closing w = true -> _closing w' = true)
  /\ (_closed w = true -> _closed w' = true)
  /\ (_eof w = true -> _eof w' = true).

(** The final teardown is scheduled at most once, and only on a transport
    that is marked closing; the loss counter can still take [budget]
    discarded writes without wrapping around. *)
Definition schedule_invariant (budget : N) (w : World) : Prop :=
  (count is_lost_schedule (log w) <= 1)%nat
  /\ ((1 <= count is_lost_schedule (log w))%nat -> (0 < _conn_lost w)%N)
  /\ ((0 < _conn_lost w)%N -> _closing w = true)
  /\ (_conn_lost w + budget < 2 ^ 32)%N
  /\ (budget + 1 < 2 ^ 32)%N.

(** After the loss of the connection: [c] writes reached the handle so
    far, at most [s] bytes are buffered, and the loss counter can still
    take [budget] discarded writes without wrapping around. *)
Definition lost_invariant (c : nat) (s : N) (budget : N) (w : World) : Prop :=
  (0 < _conn_lost w)%N
  /\ _closing w = true
  /\ count is_hwrite (log w) = c
  /\ (write_buffer_size w <= s)%N
  /\ (_conn_lost w + budget < 2 ^ 32)%N.

(** No protocol is bound and [c] callbacks were made so far. *)
Definition unbound_invariant (c : nat) (w : World) : Prop :=
  _protocol w = None
  /\ _protocol_data_received w = None
  /\ count is_callback (log w) = c.

(** At most [n] deliveries of [connection_made] were made or are
    waiting. *)
Definition made_invariant (n : nat) (w : World) : Prop :=
  (count is_made (log w) + pending_made (ready w) <= n)%nat.

(** A closing transport does not read, and no [connection_made] is
    waiting. *)
Definition quiet_when_closing (w : World) : Prop :=
  (_closing w = true -> reading w = false)
  /\ pending_made (ready w) = 0%nat.

(** While the handle is not released a protocol is bound, and it has been
    told to pause once more than to resume exactly when it is marked
    paused. *)
Definition pause_balance (w : World) : Prop :=
  _closed w = false ->
  has_protocol w = true
  /\ count is_pause (log w)
     = (count is_resume (log w) + bump (_protocol_paused w))%nat.

(** The transport never detached from listener [srv] more often than it
    attached to it, and still holds one attachment while it refers to
    it. *)
Definition listener_invariant (srv : Server) (w : World) : Prop :=
  (count (is_detach_of srv) (log w) <= count (is_attach_of srv) (log w))%nat
  /\ (_server w = Some srv ->
      (count (is_detach_of srv) (log w)
       < count (is_attach_of srv) (log w))%nat).

(** *** Concrete transports for the further properties *)

(** A protocol whose [connection_made] raises. *)
Definition refusing_protocol : Protocol :=
  {| connection_made := fun _ => Raise (ApplicationError 1);
     data_received := fun _ _ => Return tt;
     eof_received := fun _ => Return false;
     pause_writing := fun _ => Return tt;
     resume_writing := fun _ => Return tt;
     connection_lost := fun _ _ => Return tt |}.

Definition refused : World := exec (_set_protocol refusing_protocol) fresh.

(** A connected transport, and the same after [abort()], and after the
    loop ran the forced teardown. *)
Definition established : World := scenario connect.

Definition aborted : World := scenario (connect ++ [Abort]).

Definition torn : World := scenario (connect ++ [Abort; Run_ready]).

Definition three_buffers : list bytes := [one_byte; []; one_byte ++ one_byte].

(** A connection that lives through limits, a flood, a drain and a
    graceful close. *)
Definition busy_life : list Op :=
  flood_then_drain ++ [Do_set_server 3%nat; Write one_byte; Close;
                       Flushed 21%N; On_write].

(** Accepted, flooded past the high-water mark, drained below the
    low-water mark, flooded again. *)
Definition flood_drain_flood : list Op :=
  [On_accept; Run_ready; Set_write_buffer_limits (Some 100) (Some 25);
   Write bytes_150; Flushed 130%N; On_write; Write bytes_150].

Definition bound_fresh : World :=
  exec (_set_protocol quiet_protocol) (__cinit__ HIGH_64K LOW_16K).

(** Every way of ending the connection, one after the other, with writes
    in between. *)
Definition close_abort_fatal : list Op :=
  connect ++ [Write one_byte; Close; Abort; Write one_byte;
              Fatal_error (OSError 5) false].

(** Writes and a graceful close on a connection that is already lost. *)
Definition writes_after_loss : list Op :=
  [Write one_byte; Writelines three_buffers; Close; Run_ready].
(** ** Flow control: the pause and resume checks *)

Lemma app_snoc2 {A} (l : list A) (a b : A) : (l ++ [a]) ++ [b] = l ++ [a; b].
Proof. now rewrite <- app_assoc. Qed.

(** What the pause check does to the world, in every state. *)
Lemma maybe_pause_protocol_exec (w : World) :
  exec _maybe_pause_protocol w =
    if pause_due w then
      match _protocol w with
      | Some p =>
          set_log
            (log w ++ PauseWriting ::
               isolated "protocol.pause_writing() failed"
                 (pause_writing p (log w)))
            (set_protocol_paused true w)
      | None =>
          set_log
            (log w ++
               [ExceptionHandler "protocol.pause_writing() failed"
                  AttributeError])
            (set_protocol_paused true w)
      end
    else w.
Proof.
  destruct w as [pr dr co pa ef cl lo fc hw lw sv cd sz rd rq lg].
  unfold pause_due, exec, _maybe_pause_protocol; cbn.
  destruct fc; cbn; [|reflexivity].
  rewrite Z.leb_antisym.
  destruct (hw <? Z.of_N sz); cbn; [|reflexivity].
  destruct pa; cbn; [reflexivity|].
  destruct pr as [p|]; cbn; [|reflexivity].
  unfold try_except_Exception, bind, invoke, call_exception_handler, emit,
    modify, isolated; cbn.
  destruct (pause_writing p lg) as [[]|e]; cbn; [reflexivity|].
  destruct (is_Exception e); cbn; [|reflexivity].
  now rewrite app_snoc2.
Qed.

Lemma maybe_resume_protocol_exec (w : World) :
  exec _maybe_resume_protocol w =
    if resume_due w then
      match _protocol w with
      | Some p =>
          set_log
            (log w ++ ResumeWriting ::
               isolated "protocol.resume_writing() failed"
                 (resume_writing p (log w)))
            (set_protocol_paused false w)
      | None =>
          set_log
            (log w ++
               [ExceptionHandler "protocol.resume_writing() failed"
                  AttributeError])
            (set_protocol_paused false w)
      end
    else w.
Proof.
  destruct w as [pr dr co pa ef cl lo fc hw lw sv cd sz rd rq lg].
  unfold resume_due, exec, _maybe_resume_protocol; cbn.
  destruct fc; cbn; [|reflexivity].
  destruct pa; cbn; [|reflexivity].
  destruct (Z.of_N sz <=? lw); cbn; [|reflexivity].
  destruct pr as [p|]; cbn; [|reflexivity].
  unfold try_except_Exception, bind, invoke, call_exception_handler, emit,
    modify, isolated; cbn.
  destruct (resume_writing p lg) as [[]|e]; cbn; [reflexivity|].
  destruct (is_Exception e); cbn; [|reflexivity].
  now rewrite app_snoc2.
Qed.

(** C2. For every transport state with a protocol bound: the pause check
    marks the protocol paused and invokes [pause_writing] exactly when flow
    control is enabled, the write-buffer size is strictly greater than
    [high_water] and the protocol is not already marked paused, and
    otherwise changes nothing; the resume check clears the mark and invokes
    [resume_writing] exactly when flow control is enabled, the protocol is
    marked paused and the size is at most [low_water], and otherwise
    changes nothing.  An exception raised by the callback is reported to
    the loop's exception handler. *)
Theorem pause_resume_exactly_when_due (w : World) (p : Protocol) :
  _protocol w = Some p ->
  exec _maybe_pause_protocol w =
    (if pause_due w then
       set_log
         (log w ++ PauseWriting ::
            isolated "protocol.pause_writing() failed"
              (pause_writing p (log w)))
         (set_protocol_paused true w)
     else w)
  /\
  exec _maybe_resume_protocol w =
    (if resume_due w then
       set_log
         (log w ++ ResumeWriting ::
            isolated "protocol.resume_writing() failed"
              (resume_writing p (log w)))
         (set_protocol_paused false w)
     else w).
Proof.
  intros Hp.
  rewrite maybe_pause_protocol_exec, maybe_resume_protocol_exec, Hp.
  split; reflexivity.
Qed.

(** ** The write path *)

Lemma bind_assoc {A B C} (m : M A) (k : A -> M B) (h : B -> M C) (w : World) :
  bind (bind m k) h w = bind m (fun a => bind (k a) h) w.
Proof.
  unfold bind. destruct (m w) as [[a|e] w']; [|reflexivity].
  destruct (k a w') as [[b|e] w'']; reflexivity.
Qed.

(** Running the pause check twice in a row is the same as running it
    once: after the first run the protocol is marked paused or the check
    does not apply. *)
Lemma maybe_pause_protocol_twice (w : World) :
  (_maybe_pause_protocol ;; _maybe_pause_protocol) w = _maybe_pause_protocol w.
Proof.
  destruct w as [pr dr co pa ef cl lo fc hw lw sv cd sz rd rq lg].
  unfold _maybe_pause_protocol, bind at 1; cbn.
  destruct fc; cbn; [|reflexivity].
  destruct (Z.of_N sz <=? hw) eqn:Hsz; cbn; [now rewrite Hsz|].
  destruct pa; cbn; [now rewrite Hsz|].
  destruct pr as [p|]; cbn.
  - unfold try_except_Exception, bind, invoke, call_exception_handler, emit,
      modify; cbn.
    destruct (pause_writing p lg) as [[]|e]; cbn; [now rewrite Hsz|].
    destruct (is_Exception e); cbn; [now rewrite Hsz|reflexivity].
  - now rewrite Hsz.
Qed.

Lemma UVStream__write_exec (data : bytes) (w : World) :
  UVStream__write data w =
    (Return tt,
     set_log (log w ++ [HWrite data])
       (set_write_buffer_size
          (write_buffer_size w + N.of_nat (List.length data))%N w)).
Proof. reflexivity. Qed.

(** The pause check as a whole: what it hands back and the world it
    leaves, in every state. *)
Lemma maybe_pause_protocol_run (w : World) :
  _maybe_pause_protocol w =
    if pause_due w then
      match _protocol w with
      | Some p =>
          (uncaught (pause_writing p (log w)),
           set_log
             (log w ++ PauseWriting ::
                isolated "protocol.pause_writing() failed"
                  (pause_writing p (log w)))
             (set_protocol_paused true w))
      | None =>
          (Return tt,
           set_log
             (log w ++
                [ExceptionHandler "protocol.pause_writing() failed"
                   AttributeError])
             (set_protocol_paused true w))
      end
    else (Return tt, w).
Proof.
  destruct w as [pr dr co pa ef cl lo fc hw lw sv cd sz rd rq lg].
  unfold pause_due, _maybe_pause_protocol; cbn.
  destruct fc; cbn; [|reflexivity].
  rewrite Z.leb_antisym.
  destruct (hw <? Z.of_N sz); cbn; [|reflexivity].
  destruct pa; cbn; [reflexivity|].
  destruct pr as [p|]; cbn; [|reflexivity].
  unfold try_except_Exception, bind, invoke, call_exception_handler, emit,
    modify, isolated, uncaught; cbn.
  destruct (pause_writing p lg) as [[]|e]; cbn; [reflexivity|].
  destruct (is_Exception e); cbn; [|reflexivity].
  now rewrite app_snoc2.
Qed.

Lemma incr_uint32_small (n : N) :
  (n + 1 < 2 ^ 32)%N -> incr_uint32 n = (n + 1)%N.
Proof. intros H. unfold incr_uint32, UINT32_MODULUS. now apply N.mod_small. Qed.

Lemma incr_uint32_zero : incr_uint32 0 = 1%N.
Proof. reflexivity. Qed.



(** ** Threshold configuration *)

Lemma maybe_pause_protocol_result (w : World) (e : Exn) :
  result _maybe_pause_protocol w = Raise e -> is_Exception e = false.
Proof.
  destruct w as [pr dr co pa ef cl lo fc hw lw sv cd sz rd rq lg].
  unfold result, _maybe_pause_protocol; cbn.
  destruct fc; cbn; [|discriminate].
  destruct (Z.of_N sz <=? hw); cbn; [discriminate|].
  destruct pa; cbn; [discriminate|].
  destruct pr as [p|]; cbn; [|discriminate].
  unfold try_except_Exception, bind, invoke, call_exception_handler, emit,
    modify; cbn.
  destruct (pause_writing p lg) as [[]|e']; cbn; [discriminate|].
  destruct (is_Exception e') eqn:He; cbn; [discriminate|congruence].
Qed.

Lemma maybe_resume_protocol_result (w : World) (e : Exn) :
  result _maybe_resume_protocol w = Raise e -> is_Exception e = false.
Proof.
  destruct w as [pr dr co pa ef cl lo fc hw lw sv cd sz rd rq lg].
  unfold result, _maybe_resume_protocol; cbn.
  destruct fc; cbn; [|discriminate].
  destruct (pa && (Z.of_N sz <=? lw)); cbn; [|discriminate].
  destruct pr as [p|]; cbn; [|discriminate].
  unfold try_except_Exception, bind, invoke, call_exception_handler, emit,
    modify; cbn.
  destruct (resume_writing p lg) as [[]|e']; cbn; [discriminate|].
  destruct (is_Exception e') eqn:He; cbn; [discriminate|congruence].
Qed.

(** The two flow-control checks leave the thresholds alone. *)
Lemma maybe_pause_protocol_limits (w : World) :
  _high_water (exec _maybe_pause_protocol w) = _high_water w
  /\ _low_water (exec _maybe_pause_protocol w) = _low_water w.
Proof.
  rewrite maybe_pause_protocol_exec.
  destruct (pause_due w), (_protocol w); split; reflexivity.
Qed.

Lemma maybe_resume_protocol_limits (w : World) :
  _high_water (exec _maybe_resume_protocol w) = _high_water w
  /\ _low_water (exec _maybe_resume_protocol w) = _low_water w.
Proof.
  rewrite maybe_resume_protocol_exec.
  destruct (resume_due w), (_protocol w); split; reflexivity.
Qed.

Lemma exec_bind {A B} (m : M A) (k : A -> M B) (w : World) :
  exec (bind m k) w =
    match result m w with
    | Return a => exec (k a) (exec m w)
    | Raise _ => exec m w
    end.
Proof.
  unfold exec, result, bind. destruct (m w) as [[a|e] w']; reflexivity.
Qed.

Lemma result_bind {A B} (m : M A) (k : A -> M B) (w : World) :
  result (bind m k) w =
    match result m w with
    | Return a => result (k a) (exec m w)
    | Raise e => Raise e
    end.
Proof.
  unfold exec, result, bind. destruct (m w) as [[a|e] w']; reflexivity.
Qed.

(** The public method, once its arguments are C ints: defaulting, the
    check, then either the error or the update followed by both
    flow-control checks. *)
Lemma set_write_buffer_limits_unfold (HIGH LOW : Z) (high low : option Z)
  (w : World) :
  fits_int (arg_int high) = true ->
  fits_int (arg_int low) = true ->
  set_write_buffer_limits HIGH LOW high low w =
    let h := defaulted_high HIGH LOW high low in
    let l := defaulted_low HIGH LOW high low in
    if (h >=? l) && (l >=? 0) then
      (_maybe_pause_protocol ;; _maybe_resume_protocol)
        (set_low_water l (set_high_water h w))
    else (Raise (ValueError h l), w).
Proof.
  intros Hh Hl.
  unfold set_write_buffer_limits, as_int, defaulted_low, defaulted_high.
  fold (arg_int high). fold (arg_int low).
  rewrite Hh, Hl. cbn zeta. unfold bind at 1, ret at 1. unfold bind at 1, ret at 1.
  unfold _set_write_buffer_limits.
  replace (unspecified high) with (arg_int high =? -1) by (destruct high; reflexivity).
  replace (unspecified low) with (arg_int low =? -1) by (destruct low; reflexivity).
  cbn zeta.
  destruct (_ && _); reflexivity.
Qed.

Lemma limits_valid_iff (h l : Z) :
  (h >=? l) && (l >=? 0) = true <-> limits_valid h l.
Proof.
  unfold limits_valid. rewrite andb_true_iff, !Z.geb_le. lia.
Qed.

(** C9. For arguments that are C ints, [set_write_buffer_limits(high, low)]
    raises [ValueError] if and only if the thresholds after defaulting
    (as the method defaults them) do not satisfy [high >= low >= 0]; when
    it does, the whole transport state, thresholds included, is left as it
    was; and [set_write_buffer_limits(high=10, low=20)] raises. *)
Theorem limits_rejected_iff_invalid (HIGH LOW : Z) (high low : option Z)
  (w : World) :
  fits_int (arg_int high) = true ->
  fits_int (arg_int low) = true ->
  let h := defaulted_high HIGH LOW high low in
  let l := defaulted_low HIGH LOW high low in
  ((exists a b,
      result (set_write_buffer_limits HIGH LOW high low) w
      = Raise (ValueError a b))
   <-> ~ limits_valid h l)
  /\ (~ limits_valid h l ->
      set_write_buffer_limits HIGH LOW high low w = (Raise (ValueError h l), w))
  /\ set_write_buffer_limits HIGH LOW (Some 10) (Some 20) w
     = (Raise (ValueError 10 20), w).
Proof.
  intros Hh Hl h l.
  pose proof (set_write_buffer_limits_unfold HIGH LOW high low w Hh Hl) as E.
  cbn zeta in E. fold h l in E.
  pose proof (limits_valid_iff h l) as V.
  destruct ((h >=? l) && (l >=? 0)) eqn:C.
  - assert (Hv : limits_valid h l) by now apply V.
    split; [|split]; [| tauto | reflexivity].
    split; [|tauto].
    intros (a & b & R). exfalso.
    unfold result in R. rewrite E in R.
    change (result (_maybe_pause_protocol ;; _maybe_resume_protocol)
              (set_low_water l (set_high_water h w)) = Raise (ValueError a b)) in R.
    rewrite result_bind in R.
    destruct (result _maybe_pause_protocol _) eqn:R1.
    + apply maybe_resume_protocol_result in R. discriminate.
    + injection R as ->. apply maybe_pause_protocol_result in R1. discriminate.
  - assert (Hv : ~ limits_valid h l) by (rewrite <- V; discriminate).
    split; [|split]; [| intros _; exact E | reflexivity].
    split; [tauto|]. intros _. exists h, l. unfold result. now rewrite E.
Qed.

(** C6, as the code has it.  For arguments that are C ints, with [None]
    (or -1, the method's own marker for it) counting as unspecified: an
    unspecified [high] becomes the high-water constant when [low] is
    unspecified too and the low-water constant when [low] was given; an
    unspecified [low] becomes a quarter (rounded down) of [high], given or
    just defaulted.  These are the thresholds installed when the check
    passes, and the values reported in the error when it does not.  When
    neither is given the low threshold is a quarter of the high-water
    constant, which is the low-water constant whenever the two constants
    are in that ratio. *)
Theorem limits_defaults_as_coded (HIGH LOW : Z) (high low : option Z)
  (w : World) :
  fits_int (arg_int high) = true ->
  fits_int (arg_int low) = true ->
  let w' := exec (set_write_buffer_limits HIGH LOW high low) w in
  let h :=
    if unspecified high then (if unspecified low then HIGH else LOW)
    else arg_int high in
  let l := if unspecified low then h / 4 else arg_int low in
  (if (h >=? l) && (l >=? 0)
   then _high_water w' = h /\ _low_water w' = l
   else w' = w
        /\ result (set_write_buffer_limits HIGH LOW high low) w
           = Raise (ValueError h l))
  /\ (unspecified high = true -> unspecified low = true ->
      LOW = HIGH / 4 -> l = LOW).
Proof.
  intros Hh Hl w' h l.
  pose proof (set_write_buffer_limits_unfold HIGH LOW high low w Hh Hl) as E.
  cbn zeta in E. unfold defaulted_low, defaulted_high in E. fold h l in E.
  split.
  - subst w'. unfold exec, result. rewrite E.
    destruct ((h >=? l) && (l >=? 0)); [|split; reflexivity].
    change (_high_water (exec (_maybe_pause_protocol ;; _maybe_resume_protocol)
              (set_low_water l (set_high_water h w))) = h
            /\ _low_water (exec (_maybe_pause_protocol ;; _maybe_resume_protocol)
              (set_low_water l (set_high_water h w))) = l).
    rewrite exec_bind.
    pose proof (maybe_pause_protocol_limits (set_low_water l (set_high_water h w)))
      as [P1 P2].
    destruct (result _maybe_pause_protocol _).
    + pose proof (maybe_resume_protocol_limits
        (exec _maybe_pause_protocol (set_low_water l (set_high_water h w))))
        as [R1 R2].
      rewrite R1, R2, P1, P2. split; reflexivity.
    + rewrite P1, P2. split; reflexivity.
  - intros Uh Ul HL. subst l h. rewrite Uh, Ul. congruence.
Qed.

(** ** Final teardown and the write-completion hook *)

(** The final teardown, in every state: nothing on a closed transport;
    otherwise the callback (if due), then the cleanup, whatever the
    callback did. *)
Lemma call_connection_lost_run (exc : option Exn) (w : World) :
  _call_connection_lost exc w =
    if _closed w then (Return tt, w)
    else (teardown_outcome exc w, torn_down exc w).
Proof.
  destruct w as [pr dr co pa ef cl lo fc hw lw sv cd sz rd rq lg].
  unfold _call_connection_lost, torn_down, teardown_outcome,
    teardown_callback, teardown_cleanup.
  unfold bind at 1, gets at 1; cbn.
  destruct cd; [reflexivity|].
  unfold try_finally.
  destruct co; cbn.
  - destruct pr as [p|]; cbn.
    + destruct sv; cbn; rewrite <- ?app_assoc; reflexivity.
    + destruct sv; cbn; rewrite <- ?app_assoc, ?app_nil_r; reflexivity.
  - destruct sv; cbn; rewrite <- ?app_assoc; reflexivity.
Qed.

Lemma maybe_resume_protocol_result_escapes (w : World) :
  result _maybe_resume_protocol w = Return tt <-> resume_escapes w = false.
Proof.
  destruct w as [pr dr co pa ef cl lo fc hw lw sv cd sz rd rq lg].
  unfold result, _maybe_resume_protocol, resume_escapes, resume_due; cbn.
  destruct fc; cbn; [|tauto].
  destruct (pa && (Z.of_N sz <=? lw)); cbn; [|tauto].
  destruct pr as [p|]; cbn; [|tauto].
  unfold try_except_Exception, bind, invoke, call_exception_handler, emit,
    modify; cbn.
  destruct (resume_writing p lg) as [[]|e']; cbn; [tauto|].
  destruct (is_Exception e'); cbn; split; congruence.
Qed.

Lemma maybe_resume_protocol_frame (w : World) :
  let w1 := exec _maybe_resume_protocol w in
  write_buffer_size w1 = write_buffer_size w
  /\ _closing w1 = _closing w
  /\ _eof w1 = _eof w
  /\ _closed w1 = _closed w
  /\ _protocol_connected w1 = _protocol_connected w
  /\ _protocol w1 = _protocol w
  /\ _server w1 = _server w
  /\ ready w1 = ready w.
Proof.
  cbn zeta. rewrite maybe_resume_protocol_exec.
  destruct (resume_due w); [destruct (_protocol w) eqn:E|]; cbn;
    rewrite ?E; repeat split; reflexivity.
Qed.

Lemma on_write_tail (w : World) :
  exec
    (size <- _get_write_buffer_size ;;
     if (size =? 0)%N then
       closing <- gets _closing ;;
       if closing then _call_connection_lost None
       else
         eof <- gets _eof ;;
         if eof then _shutdown else ret tt
     else ret tt) w =
    if (write_buffer_size w =? 0)%N then
      if _closing w then exec (_call_connection_lost None) w
      else if _eof w then set_log (log w ++ [HShutdown]) w
      else w
    else w.
Proof.
  unfold exec at 1, bind at 1, _get_write_buffer_size, gets at 1; cbn.
  destruct (write_buffer_size w =? 0)%N; [|reflexivity].
  unfold bind at 1, gets at 1; cbn.
  destruct (_closing w); [reflexivity|].
  unfold bind at 1, gets at 1; cbn.
  destruct (_eof w); reflexivity.
Qed.

(** The write-completion hook: the resume check, then, when the buffer is
    empty, the final teardown if closing, else the shutdown if EOF was
    requested. *)
Lemma on_write_exec (w : World) :
  exec _on_write w =
    let w1 := exec _maybe_resume_protocol w in
    if resume_escapes w then w1
    else if (write_buffer_size w =? 0)%N then
      if _closing w then exec (_call_connection_lost None) w1
      else if _eof w then set_log (log w1 ++ [HShutdown]) w1
      else w1
    else w1.
Proof.
  cbn zeta. unfold _on_write. rewrite exec_bind.
  pose proof (maybe_resume_protocol_result_escapes w) as R.
  pose proof (maybe_resume_protocol_frame w) as (F1 & F2 & F3 & _).
  destruct (result _maybe_resume_protocol w) as [[]|e].
  - replace (resume_escapes w) with false by (symmetry; now apply R).
    rewrite on_write_tail, F1, F2, F3. reflexivity.
  - destruct (resume_escapes w); [reflexivity|].
    destruct R as [_ R]. discriminate (R eq_refl).
Qed.

(** ** Reasoning about methods: preserved properties *)

Section Preserves.

Variable I : World -> Prop.

Lemma preserves_ret {A} (a : A) : preserves I (ret a).
Proof. intros w H; exact H. Qed.

Lemma preserves_raise {A} (e : Exn) : preserves I (@raise A e).
Proof. intros w H; exact H. Qed.

Lemma preserves_gets {A} (f : World -> A) : preserves I (gets f).
Proof. intros w H; exact H. Qed.

Lemma preserves_modify (f : World -> World) :
  (forall w, I w -> I (f w)) -> preserves I (modify f).
Proof. intros Hf w H; apply Hf, H. Qed.

Lemma preserves_invoke {A} (p : Protocol) (ev : Event)
  (method : Protocol -> list Event -> Outcome A) :
  (forall w, I w -> I (set_log (log w ++ [ev]) w)) ->
  preserves I (invoke p ev method).
Proof. intros Hf w H; apply Hf, H. Qed.

Lemma preserves_bind {A B} (m : M A) (k : A -> M B) :
  preserves I m -> (forall a, preserves I (k a)) -> preserves I (bind m k).
Proof.
  intros Hm Hk w H. rewrite exec_bind.
  destruct (result m w); [apply Hk|]; apply Hm, H.
Qed.

Lemma preserves_try_except (body : M unit) (handler : Exn -> M unit) :
  preserves I body -> (forall e, preserves I (handler e)) ->
  preserves I (try_except_Exception body handler).
Proof.
  intros Hb Hh w H. specialize (Hb w H).
  unfold exec, try_except_Exception in *.
  destruct (body w) as [[a|e] w']; cbn in *; [exact Hb|].
  destruct (is_Exception e); [apply Hh|]; exact Hb.
Qed.

Lemma preserves_try_finally {A} (body : M A) (final : M unit) :
  preserves I body -> preserves I final ->
  preserves I (try_finally body final).
Proof.
  intros Hb Hf w H. specialize (Hb w H).
  unfold exec, try_finally in *.
  destruct (body w) as [r w']; cbn in *.
  specialize (Hf w' Hb). unfold exec in Hf.
  destruct (final w') as [[a|e] w'']; exact Hf.
Qed.

End Preserves.

Ltac head_of t :=
  lazymatch t with
  | ?f _ => head_of f
  | _ => t
  end.

(** Walks through the text of a method.  [known] closes a goal about a
    method that has its own lemma, [side] proves that a primitive update
    or a logged callback keeps the property. *)
Ltac preserve_with known side :=
  repeat first
    [ solve [known]
    | apply preserves_ret
    | apply preserves_raise
    | apply preserves_gets
    | apply preserves_bind; [|intro]
    | apply preserves_try_except; [|intro]
    | apply preserves_try_finally
    | apply preserves_modify; solve [side]
    | apply preserves_invoke; solve [side]
    | lazymatch goal with
      | |- preserves _ (match ?x with _ => _ end) => destruct x
      | |- preserves _ ?m =>
          let h := head_of m in progress (unfold h; cbv beta zeta)
      end ].

Lemma count_app (f : Event -> bool) (l m : list Event) :
  count f (l ++ m) = (count f l + count f m)%nat.
Proof.
  unfold count. induction l as [|a l IH]; cbn; [reflexivity|].
  destruct (f a); cbn; now rewrite IH.
Qed.

Lemma count_snoc (f : Event -> bool) (l : list Event) (ev : Event) :
  count f (l ++ [ev]) = (count f l + if f ev then 1 else 0)%nat.
Proof. rewrite count_app. unfold count at 2; cbn. now destruct (f ev). Qed.

Lemma count_nil (f : Event -> bool) : count f [] = 0%nat.
Proof. reflexivity. Qed.

Lemma count_cons (f : Event -> bool) (ev : Event) (l : list Event) :
  count f (ev :: l) = (bump (f ev) + count f l)%nat.
Proof. unfold count; cbn. now destruct (f ev). Qed.

(** *** Operations that never invoke [connection_lost] *)

Ltac lost_side :=
  let w := fresh "w" in let H := fresh "H" in
  intros w H; cbn; rewrite ?count_snoc; cbn; rewrite ?Nat.add_0_r; exact H.

Ltac no_known := fail.

Lemma write_keeps_lost (c : nat) (buf : bytes) :
  preserves (fun w => count is_lost (log w) = c) (write buf).
Proof. preserve_with no_known lost_side. Qed.

Lemma writelines_keeps_lost (c : nat) (bufs : list bytes) :
  preserves (fun w => count is_lost (log w) = c) (writelines bufs).
Proof.
  induction bufs as [|buf bufs IH]; cbn [writelines].
  - apply preserves_ret.
  - apply preserves_bind; [apply write_keeps_lost|intros _; exact IH].
Qed.

Lemma other_operations_keep_lost (HIGH LOW : Z) (c : nat) (op : Op) :
  op <> Run_ready -> op <> On_write ->
  preserves (fun w => count is_lost (log w) = c) (perform HIGH LOW op).
Proof.
  intros N1 N2.
  destruct op; try congruence; cbn [perform];
    preserve_with ltac:(apply writelines_keeps_lost) lost_side.
Qed.

(** ** Lifecycle: [connection_lost] at most once, after [connection_made] *)

Lemma snoc_eq_split {A} (l l1 l2 : list A) (x y : A) :
  l ++ [x] = l1 ++ y :: l2 ->
  (l2 = [] /\ l = l1 /\ x = y)
  \/ (exists l2', l2 = l2' ++ [x] /\ l = l1 ++ y :: l2').
Proof.
  intros E.
  destruct (@exists_last _ (y :: l2) ltac:(discriminate)) as (m & z & Hm).
  destruct l2 as [|b l2].
  - left. apply (app_inj_tail l l1 x y) in E. tauto.
  - right.
    destruct (@exists_last _ (b :: l2) ltac:(discriminate)) as (m' & z' & Hm').
    rewrite Hm' in E.
    change (l ++ [x] = l1 ++ (y :: m') ++ [z']) in E.
    rewrite app_assoc in E. apply app_inj_tail in E as [E1 E2].
    exists m'. subst. split; [exact Hm'|reflexivity].
Qed.

Lemma lost_in_order_snoc (l : list Event) (ev : Event) :
  lost_in_order l -> is_lost ev = false -> lost_in_order (l ++ [ev]).
Proof.
  intros H Hev l1 exc l2 E.
  apply snoc_eq_split in E as [(_ & _ & E)|(l2' & _ & E)].
  - subst ev. discriminate.
  - exact (H l1 exc l2' E).
Qed.

Lemma lost_in_order_snoc_lost (l : list Event) (exc : option Exn) :
  lost_in_order l -> In ConnectionMade l -> ~ In HClose l ->
  lost_in_order (l ++ [ConnectionLost exc]).
Proof.
  intros H Hm Hc l1 exc' l2 E.
  apply snoc_eq_split in E as [(_ & E & _)|(l2' & _ & E)].
  - subst l1. split; assumption.
  - exact (H l1 exc' l2' E).
Qed.

Lemma lost_in_order_app_quiet (l m : list Event) :
  lost_in_order l -> count is_lost m = 0%nat -> lost_in_order (l ++ m).
Proof.
  intros H. induction m as [|ev m IH] using rev_ind; intros Hm.
  - now rewrite app_nil_r.
  - rewrite count_snoc in Hm. rewrite app_assoc.
    apply lost_in_order_snoc; [apply IH; lia|].
    destruct (is_lost ev); [lia|reflexivity].
Qed.

Lemma In_snoc_other (l : list Event) (ev x : Event) :
  ev <> x -> In x (l ++ [ev]) -> In x l.
Proof.
  intros N H. apply in_app_or in H as [H|[H|[]]]; [exact H|congruence].
Qed.

Ltac lifecycle_side :=
  let w := fresh "w" in
  let H1 := fresh "H" in let H2 := fresh "H" in
  let H3 := fresh "H" in let H4 := fresh "H" in
  intros w (H1 & H2 & H3 & H4); unfold lifecycle_invariant; cbn;
  first
    [ tauto
    | split; [apply lost_in_order_snoc; [exact H1|reflexivity]|];
      split; [rewrite count_snoc; cbn; lia|];
      split;
      [ let Hc := fresh "Hc" in
        intros Hc; destruct (H3 Hc) as [? ?]; split;
        [ rewrite count_snoc; cbn; lia
        | let Hin := fresh "Hin" in
          intros Hin; apply In_snoc_other in Hin; [tauto|discriminate] ]
      | intros; apply in_or_app; left; tauto ] ].

Lemma close_handle_keeps_lifecycle : preserves lifecycle_invariant _close.
Proof.
  intros w (H1 & H2 & H3 & H4). unfold lifecycle_invariant; cbn.
  split; [apply lost_in_order_snoc; [exact H1|reflexivity]|].
  split; [rewrite count_snoc; cbn; lia|].
  split; [discriminate|].
  intros; apply in_or_app; left; tauto.
Qed.

Lemma call_connection_made_keeps_lifecycle :
  preserves lifecycle_invariant _call_connection_made.
Proof.
  intros w (H1 & H2 & H3 & H4).
  destruct w as [pr dr co pa ef cl lo fc hw lw sv cd sz rd rq lg].
  unfold exec, _call_connection_made, bind at 1, gets at 1; cbn in *.
  destruct pr as [p|]; cbn; [|unfold lifecycle_invariant; cbn; tauto].
  unfold call_protocol, bind, gets, invoke, modify, _start_reading, emit; cbn.
  assert (Hmade : lost_in_order (lg ++ [ConnectionMade]))
    by (apply lost_in_order_snoc; [exact H1|reflexivity]).
  assert (Hin : In ConnectionMade (lg ++ [ConnectionMade]))
    by (apply in_or_app; right; left; reflexivity).
  assert (Hcl : cd = false -> ~ In HClose (lg ++ [ConnectionMade]))
    by (intros Hc Hx; apply In_snoc_other in Hx; [tauto|discriminate]).
  destruct (connection_made p lg) as [[]|e]; cbn; unfold lifecycle_invariant; cbn.
  - split; [apply lost_in_order_snoc; [exact Hmade|reflexivity]|].
    split; [rewrite !count_snoc; cbn; lia|].
    split.
    + intros Hc. destruct (H3 Hc). split; [rewrite !count_snoc; cbn; lia|].
      intros Hx. apply In_snoc_other in Hx; [tauto|discriminate].
    + intros _. apply in_or_app; left; exact Hin.
  - split; [exact Hmade|].
    split; [rewrite !count_snoc; cbn; lia|].
    split.
    + intros Hc. destruct (H3 Hc). split; [rewrite !count_snoc; cbn; lia|tauto].
    + intros _. exact Hin.
Qed.

Lemma teardown_cleanup_counts (w : World) :
  count is_lost (teardown_cleanup w) = 0%nat
  /\ count is_shutdown (teardown_cleanup w) = 0%nat
  /\ count is_lost_schedule (teardown_cleanup w) = 0%nat
  /\ count is_detach (teardown_cleanup w)
     = match _server w with Some _ => 1%nat | None => 0%nat end.
Proof. unfold teardown_cleanup. destruct (_server w); repeat split. Qed.

Lemma call_connection_lost_keeps_lifecycle (exc : option Exn) :
  preserves lifecycle_invariant (_call_connection_lost exc).
Proof.
  intros w H. pose proof H as (H1 & H2 & H3 & H4).
  unfold exec. rewrite call_connection_lost_run.
  destruct (_closed w) eqn:Hc; [exact H|].
  destruct (H3 eq_refl) as [H0 Hn]. cbn [snd].
  pose proof (teardown_cleanup_counts w) as (Q & _).
  unfold lifecycle_invariant, torn_down; cbn.
  split; [|split; [|split; [discriminate|]]].
  - rewrite app_assoc. apply lost_in_order_app_quiet; [|exact Q].
    unfold teardown_callback.
    destruct (_protocol_connected w); [|now rewrite app_nil_r].
    destruct (_protocol w); [|now rewrite app_nil_r].
    apply lost_in_order_snoc_lost; tauto.
  - rewrite !count_app, Q, H0. unfold teardown_callback.
    destruct (_protocol_connected w); [destruct (_protocol w)|];
      unfold count; cbn; lia.
  - intros Hco. apply in_or_app; left; tauto.
Qed.

Lemma operation_keeps_lifecycle (HIGH LOW : Z) (op : Op) :
  preserves lifecycle_invariant (perform HIGH LOW op).
Proof.
  assert (W : forall buf, preserves lifecycle_invariant (write buf))
    by (intro buf; preserve_with no_known lifecycle_side).
  assert (WL : forall bufs, preserves lifecycle_invariant (writelines bufs)).
  { induction bufs as [|buf bufs IH]; cbn [writelines].
    - apply preserves_ret.
    - apply preserves_bind; [apply W|intros _; exact IH]. }
  destruct op; cbn [perform];
    preserve_with
      ltac:(first [ apply WL
                  | apply close_handle_keeps_lifecycle
                  | apply call_connection_made_keeps_lifecycle
                  | apply call_connection_lost_keeps_lifecycle ])
      lifecycle_side.
Qed.

Lemma run_keeps (I : World -> Prop) (HIGH LOW : Z) :
  (forall op, preserves I (perform HIGH LOW op)) ->
  forall ops w, I w -> I (run HIGH LOW ops w).
Proof.
  intros Hop ops. induction ops as [|op ops IH]; intros w H; cbn.
  - exact H.
  - apply IH. apply Hop, H.
Qed.

Lemma lifecycle_invariant_init (HIGH LOW : Z) :
  lifecycle_invariant (__cinit__ HIGH LOW).
Proof.
  unfold lifecycle_invariant; cbn.
  split; [|split; [unfold count; cbn; lia|split; [|discriminate]]].
  - intros [|? ?] ? ? E; discriminate.
  - intros _. split; [reflexivity|tauto].
Qed.

Lemma lost_in_order_torn_down_first (l a b : list Event) :
  lost_in_order l -> l = a ++ HClose :: b -> ~ In ConnectionMade a ->
  count is_lost l = 0%nat.
Proof.
  intros H E Hn.
  destruct (count is_lost l) eqn:C; [reflexivity|exfalso].
  assert (X : exists l1 exc l2, l = l1 ++ ConnectionLost exc :: l2).
  { clear -C. induction l as [|ev l IH]; [discriminate|].
    destruct ev; try (change (count is_lost l = S n) in C;
      destruct (IH C) as (l1 & exc' & l2 & ->);
      eexists (_ :: l1), exc', l2; reflexivity).
    exists [], exc, l. reflexivity. }
  destruct X as (l1 & exc & l2 & E').
  destruct (H l1 exc l2 E') as [Hm Hc].
  rewrite E in E'. apply app_eq_app in E' as (m & [[E1 E2]|[E1 E2]]).
  - (* a = l1 ++ m *) destruct m as [|x m].
    + rewrite app_nil_r in E1. cbn in E2. discriminate.
    + subst a. apply Hn. apply in_or_app; left; exact Hm.
  - (* l1 = a ++ m *) destruct m as [|x m].
    + cbn in E2. discriminate.
    + cbn in E2. injection E2 as <- _. subst l1.
      apply Hc. apply in_or_app; right; left; reflexivity.
Qed.

(** C1. On a fresh transport, after any sequence of operations, the
    protocol's [connection_lost] has been invoked at most once; every
    invocation comes after an invocation of [connection_made] and before
    the handle was released; and a transport whose handle was released
    before any [connection_made] never gets [connection_lost].  The
    callbacks in the log are those of the protocol bound to the
    transport. *)
Theorem connection_lost_once_after_made (HIGH LOW : Z) (ops : list Op) :
  let l := log (run HIGH LOW ops (__cinit__ HIGH LOW)) in
  (count is_lost l <= 1)%nat
  /\ (forall l1 exc l2,
        l = l1 ++ ConnectionLost exc :: l2 ->
        In ConnectionMade l1 /\ ~ In HClose l1)
  /\ (forall a b,
        l = a ++ HClose :: b -> ~ In ConnectionMade a ->
        count is_lost l = 0%nat).
Proof.
  cbn zeta.
  pose proof (run_keeps lifecycle_invariant HIGH LOW
                (operation_keeps_lifecycle HIGH LOW) ops _
                (lifecycle_invariant_init HIGH LOW)) as (H1 & H2 & _).
  split; [exact H2|]. split; [exact H1|].
  intros a b E Hn. eapply lost_in_order_torn_down_first; eauto.
Qed.

(** ** Teardown cleanup and the listener's count *)

Lemma torn_down_counts (f : Event -> bool) (exc : option Exn) (w : World) :
  count f (log (torn_down exc w))
  = (count f (log w) + count f (teardown_callback exc w)
     + count f (teardown_cleanup w))%nat.
Proof. unfold torn_down; cbn. rewrite !count_app. lia. Qed.

Lemma teardown_callback_lost (exc : option Exn) (w : World) :
  count is_lost (teardown_callback exc w)
  = bump (_protocol_connected w && has_protocol w).
Proof.
  unfold teardown_callback, has_protocol.
  destruct (_protocol_connected w); [destruct (_protocol w)|]; reflexivity.
Qed.

Lemma teardown_callback_other (f : Event -> bool) (exc : option Exn)
  (w : World) :
  f (ConnectionLost exc) = false -> count f (teardown_callback exc w) = 0%nat.
Proof.
  intros F. unfold teardown_callback, count.
  destruct (_protocol_connected w); [destruct (_protocol w)|]; cbn;
    rewrite ?F; reflexivity.
Qed.

Ltac detach_side :=
  let w := fresh "w" in
  let H1 := fresh "H" in let H2 := fresh "H" in
  intros w (H1 & H2); unfold detach_invariant; cbn;
  first
    [ tauto
    | split; [lia|discriminate]
    | split;
      [ rewrite count_snoc; cbn; lia
      | let Hc := fresh "Hc" in
        intros Hc; specialize (H2 Hc); rewrite count_snoc; cbn; lia ] ].

Lemma call_connection_lost_keeps_detach (exc : option Exn) :
  preserves detach_invariant (_call_connection_lost exc).
Proof.
  intros w H. pose proof H as (H1 & H2).
  unfold exec. rewrite call_connection_lost_run.
  destruct (_closed w) eqn:Hc; [exact H|].
  specialize (H2 eq_refl). cbn [snd].
  pose proof (teardown_cleanup_counts w) as (_ & _ & _ & Q).
  unfold detach_invariant, torn_down; cbn.
  split; [|discriminate].
  rewrite !count_app, Q, H2. unfold teardown_callback.
  destruct (_protocol_connected w); [destruct (_protocol w)|];
    destruct (_server w); unfold count; cbn; lia.
Qed.

Lemma operation_keeps_detach (HIGH LOW : Z) (op : Op) :
  preserves detach_invariant (perform HIGH LOW op).
Proof.
  assert (W : forall buf, preserves detach_invariant (write buf))
    by (intro buf; preserve_with no_known detach_side).
  assert (WL : forall bufs, preserves detach_invariant (writelines bufs)).
  { induction bufs as [|buf bufs IH]; cbn [writelines].
    - apply preserves_ret.
    - apply preserves_bind; [apply W|intros _; exact IH]. }
  destruct op; cbn [perform];
    preserve_with
      ltac:(first [ apply WL | apply call_connection_lost_keeps_detach ])
      detach_side.
Qed.

Lemma detach_invariant_init (HIGH LOW : Z) :
  detach_invariant (__cinit__ HIGH LOW).
Proof. unfold detach_invariant, count; cbn. split; [lia|reflexivity]. Qed.

(** C8. When the final teardown runs on a transport that is not closed
    yet, then whatever [connection_lost] does (return, raise, or fail to be
    looked up) the cleanup has run when the method is left: the protocol
    reference and the bound [data_received] are cleared, the listener (if
    any) is detached exactly once, its count of active connections goes
    down by exactly one, and it is forgotten, the handle is released; the
    outcome of the callback is what the method returns or raises.
    Over any sequence of operations on a fresh transport, a listener is
    detached at most once. *)
Theorem teardown_cleanup_always_runs (HIGH LOW : Z) (ops : list Op)
  (exc : option Exn) (w : World) :
  _closed w = false ->
  let w' := exec (_call_connection_lost exc) w in
  _protocol w' = None
  /\ _protocol_data_received w' = None
  /\ _server w' = None
  /\ _closed w' = true
  /\ log w' = log w ++ teardown_callback exc w ++ teardown_cleanup w
  /\ result (_call_connection_lost exc) w = teardown_outcome exc w
  /\ count is_detach (log w')
     = (count is_detach (log w)
        + match _server w with Some _ => 1 | None => 0 end)%nat
  /\ match _server w with
     | Some srv => active_count srv (log w') = active_count srv (log w) - 1
     | None => forall srv, active_count srv (log w') = active_count srv (log w)
     end
  /\ (count is_detach (log (run HIGH LOW ops (__cinit__ HIGH LOW))) <= 1)%nat.
Proof.
  intros Hc. cbn zeta. unfold exec, result.
  rewrite call_connection_lost_run, Hc. cbn [fst snd].
  repeat (split; [reflexivity|]).
  split.
  - unfold torn_down; cbn. rewrite !count_app.
    pose proof (teardown_cleanup_counts w) as (_ & _ & _ & Q). rewrite Q.
    unfold teardown_callback.
    destruct (_protocol_connected w); [destruct (_protocol w)|];
      unfold count at 2; cbn; lia.
  - split.
    + assert (K : forall f, f (ConnectionLost exc) = false -> f HClose = false ->
                  forall d, (forall srv, _server w = Some srv ->
                                          f (SrvDetach srv) = d) ->
                  count f (log (torn_down exc w))
                  = (count f (log w)
                     + match _server w with
                       | Some _ => bump d
                       | None => 0
                       end)%nat).
      { intros f F1 F2 d F3. rewrite torn_down_counts.
        rewrite (teardown_callback_other f exc w F1).
        unfold teardown_cleanup.
        destruct (_server w) as [srv|];
          rewrite !count_cons, count_nil, ?F2, ?(F3 srv eq_refl);
          destruct d; cbn; lia. }
      destruct (_server w) as [srv|] eqn:Es.
      * unfold active_count.
        rewrite (K (is_attach_of srv) eq_refl eq_refl false)
          by (intros; reflexivity).
        rewrite (K (is_detach_of srv) eq_refl eq_refl true)
          by (intros s [= ->]; apply Nat.eqb_refl).
        cbn [bump]. lia.
      * intros srv. unfold active_count.
        rewrite (K (is_attach_of srv) eq_refl eq_refl false)
          by (intros; reflexivity).
        rewrite (K (is_detach_of srv) eq_refl eq_refl false)
          by (intros; discriminate).
        lia.
    + apply (run_keeps detach_invariant HIGH LOW
               (operation_keeps_detach HIGH LOW) ops _
               (detach_invariant_init HIGH LOW)).
Qed.

(** ** The argument of [connection_lost] *)

Ltac none_side :=
  let w := fresh "w" in
  let H1 := fresh "H" in let H2 := fresh "H" in
  intros w (H1 & H2); unfold none_invariant; cbn;
  first
    [ tauto
    | split; [|exact H2];
      apply Forall_app; split; [exact H1|];
      constructor; [cbn; solve [reflexivity|exact Logic.I]|constructor]
    | split; [exact H1|];
      apply Forall_app; split; [exact H2|];
      constructor; [cbn; solve [reflexivity|exact Logic.I]|constructor] ].

Lemma call_connection_lost_None_keeps_none :
  preserves none_invariant (_call_connection_lost None).
Proof.
  intros w H. pose proof H as (H1 & H2).
  unfold exec. rewrite call_connection_lost_run.
  destruct (_closed w) eqn:Hc; [exact H|]. cbn [snd].
  unfold none_invariant, torn_down; cbn.
  split; [|exact H2].
  apply Forall_app; split; [exact H1|].
  apply Forall_app; split.
  - unfold teardown_callback.
    destruct (_protocol_connected w); [destruct (_protocol w)|];
      repeat constructor.
  - unfold teardown_cleanup. destruct (_server w); repeat constructor.
Qed.

Lemma call_connection_made_keeps_none :
  preserves none_invariant _call_connection_made.
Proof. preserve_with no_known none_side. Qed.

Lemma run_ready_keeps_none : preserves none_invariant run_ready.
Proof.
  intros w H. pose proof H as (H1 & H2).
  unfold run_ready. rewrite exec_bind. cbn [result gets fst].
  change (exec (gets ready) w) with w.
  destruct (ready w) as [|h rest] eqn:E; [exact H|].
  rewrite exec_bind. cbn [result modify fst].
  change (exec (modify (set_ready rest)) w) with (set_ready rest w).
  inversion H2 as [|? ? Hh Hrest]; subst.
  assert (P : preserves none_invariant
                (try_except_Exception (run_handle h)
                   (fun exc =>
                      call_exception_handler "Exception in callback" exc))).
  { apply preserves_try_except.
    - destruct h as [|exc]; cbn [run_handle].
      + apply call_connection_made_keeps_none.
      + cbn in Hh. subst exc. apply call_connection_lost_None_keeps_none.
    - intro e. preserve_with no_known none_side. }
  apply P. split; [exact H1|exact Hrest].
Qed.

Lemma operation_keeps_none (HIGH LOW : Z) (op : Op) :
  preserves none_invariant (perform HIGH LOW op).
Proof.
  assert (W : forall buf, preserves none_invariant (write buf))
    by (intro buf; preserve_with no_known none_side).
  assert (WL : forall bufs, preserves none_invariant (writelines bufs)).
  { induction bufs as [|buf bufs IH]; cbn [writelines].
    - apply preserves_ret.
    - apply preserves_bind; [apply W|intros _; exact IH]. }
  destruct op; cbn [perform];
    preserve_with
      ltac:(first [ apply WL
                  | apply run_ready_keeps_none
                  | apply call_connection_lost_None_keeps_none ])
      none_side.
Qed.

Lemma none_invariant_init (HIGH LOW : Z) :
  none_invariant (__cinit__ HIGH LOW).
Proof. split; constructor. Qed.

(** C10. On a fresh transport, after any sequence of operations, every
    invocation of [connection_lost] in the log has argument [None], and so
    has every final teardown that was scheduled or is still waiting in the
    loop's queue: [close()], [abort()], the drain of the write buffer while
    closing and the fatal-error path all pass [None].  The forced close
    does not look at the exception it is given, so the exception of a
    fatal error never reaches the protocol through [connection_lost]. *)
Theorem connection_lost_argument_is_None (HIGH LOW : Z) (ops : list Op) :
  let w := run HIGH LOW ops (__cinit__ HIGH LOW) in
  Forall lost_with_None (log w)
  /\ Forall handle_with_None (ready w)
  /\ (forall exc, In (ConnectionLost exc) (log w) -> exc = None)
  /\ (forall exc w0, _force_close exc w0 = _force_close None w0).
Proof.
  cbn zeta.
  pose proof (run_keeps none_invariant HIGH LOW
                (operation_keeps_none HIGH LOW) ops _
                (none_invariant_init HIGH LOW)) as (H1 & H2).
  split; [exact H1|]. split; [exact H2|]. split; [|reflexivity].
  intros exc Hin. rewrite Forall_forall in H1. exact (H1 _ Hin).
Qed.

(** ** Who delivers [connection_lost], and how *)

Lemma maybe_resume_protocol_counts (f : Event -> bool) (w : World) :
  f ResumeWriting = false ->
  (forall m e, f (ExceptionHandler m e) = false) ->
  count f (log (exec _maybe_resume_protocol w)) = count f (log w).
Proof.
  intros F1 F2. rewrite maybe_resume_protocol_exec.
  destruct (resume_due w); [|reflexivity].
  destruct (_protocol w) as [p|]; cbn.
  - rewrite count_app. unfold isolated, count at 2.
    destruct (resume_writing p (log w)) as [[]|e]; cbn; rewrite F1; cbn;
      [lia| destruct (is_Exception e); cbn; rewrite ?F2; cbn; lia].
  - rewrite count_snoc, F2. lia.
Qed.

Lemma on_write_lost_count (w : World) :
  count is_lost (log (exec _on_write w))
  = (count is_lost (log w) + bump (lost_on_write w))%nat.
Proof.
  rewrite on_write_exec. cbn zeta. unfold lost_on_write.
  pose proof (maybe_resume_protocol_frame w) as (_ & _ & _ & F4 & F5 & F6 & F7 & _).
  pose proof (maybe_resume_protocol_counts is_lost w eq_refl
                (fun _ _ => eq_refl)) as C.
  destruct (resume_escapes w); cbn; [rewrite C; lia|].
  destruct (write_buffer_size w =? 0)%N; cbn; [|rewrite C; lia].
  destruct (_closing w); cbn.
  - unfold exec at 1. rewrite call_connection_lost_run, F4.
    destruct (_closed w); cbn [snd negb andb bump]; [rewrite C; lia|].
    rewrite torn_down_counts, teardown_callback_lost, C.
    pose proof (teardown_cleanup_counts (exec _maybe_resume_protocol w))
      as (Q & _).
    rewrite Q. unfold has_protocol. rewrite F5, F6. lia.
  - destruct (_eof w); cbn; rewrite ?count_snoc, C; cbn; lia.
Qed.

Lemma on_write_shutdown_count (w : World) :
  count is_shutdown (log (exec _on_write w))
  = (count is_shutdown (log w) + bump (shutdown_on_write w))%nat.
Proof.
  rewrite on_write_exec. cbn zeta. unfold shutdown_on_write.
  pose proof (maybe_resume_protocol_frame w) as (_ & _ & _ & F4 & _).
  pose proof (maybe_resume_protocol_counts is_shutdown w eq_refl
                (fun _ _ => eq_refl)) as C.
  destruct (resume_escapes w); cbn; [rewrite C; lia|].
  destruct (write_buffer_size w =? 0)%N; cbn; [|rewrite C; lia].
  destruct (_closing w); cbn.
  - unfold exec at 1. rewrite call_connection_lost_run, F4.
    destruct (_closed w); cbn [snd negb andb bump]; [rewrite C; lia|].
    rewrite torn_down_counts, C.
    rewrite (teardown_callback_other is_shutdown) by reflexivity.
    pose proof (teardown_cleanup_counts (exec _maybe_resume_protocol w))
      as (_ & Q & _).
    rewrite Q. lia.
  - destruct (_eof w); cbn; rewrite ?count_snoc, C; cbn; lia.
Qed.

Lemma on_write_schedules_nothing (w : World) :
  ready (exec _on_write w) = ready w
  /\ count is_lost_schedule (log (exec _on_write w))
     = count is_lost_schedule (log w).
Proof.
  rewrite on_write_exec. cbn zeta.
  pose proof (maybe_resume_protocol_frame w) as (_ & _ & _ & F4 & _ & _ & _ & F8).
  pose proof (maybe_resume_protocol_counts is_lost_schedule w eq_refl
                (fun _ _ => eq_refl)) as C.
  destruct (resume_escapes w); cbn; [tauto|].
  destruct (write_buffer_size w =? 0)%N; cbn; [|tauto].
  destruct (_closing w); cbn.
  - unfold exec at 1 3. rewrite call_connection_lost_run, F4.
    destruct (_closed w); cbn [snd]; [tauto|].
    split; [exact F8|].
    rewrite torn_down_counts, C.
    rewrite (teardown_callback_other is_lost_schedule) by reflexivity.
    pose proof (teardown_cleanup_counts (exec _maybe_resume_protocol w))
      as (_ & _ & Q & _).
    rewrite Q. lia.
  - destruct (_eof w); cbn; rewrite ?count_snoc, C; cbn; split;
      solve [exact F8 | lia].
Qed.

Lemma close_run (w : World) :
  close w =
    (Return tt,
     if _closing w || _closed w then w
     else if (write_buffer_size w =? 0)%N
          then lost_scheduled (closing_started w)
          else closing_started w).
Proof.
  destruct w as [pr dr co pa ef cl lo fc hw lw sv cd sz rd rq lg].
  unfold close, _stop_reading, _get_write_buffer_size,
    _schedule_call_connection_lost, _call_soon_handle, emit, bind, gets,
    modify, lost_scheduled, closing_started; cbn.
  destruct (cl || cd); [reflexivity|]. cbn.
  destruct (sz =? 0)%N; cbn; rewrite <- ?app_assoc; reflexivity.
Qed.

Lemma force_close_run (exc : option Exn) (w : World) :
  _force_close exc w =
    (Return tt,
     if (0 <? _conn_lost w)%N || _closed w then w
     else lost_scheduled (if _closing w then w else closing_started w)).
Proof.
  destruct w as [pr dr co pa ef cl lo fc hw lw sv cd sz rd rq lg].
  unfold _force_close, _stop_reading,
    _schedule_call_connection_lost, _call_soon_handle, emit, bind, gets,
    modify, lost_scheduled, closing_started; cbn.
  replace (0 <? lo)%N with (negb (lo =? 0)%N).
  2:{ destruct (N.eqb_spec lo 0) as [E|E]; cbn;
      symmetry; [apply N.ltb_ge|apply N.ltb_lt]; lia. }
  destruct (negb (lo =? 0)%N || cd); [reflexivity|]. cbn.
  destruct cl; cbn; rewrite <- ?app_assoc; reflexivity.
Qed.

Lemma fatal_error_run (exc : Exn) (throw : bool) (w : World) :
  _fatal_error exc throw w =
    _force_close None
      (if is_peer_termination exc then w
       else set_log (log w ++ [ExceptionHandler "Fatal error on transport" exc])
              w).
Proof.
  unfold _fatal_error, bind at 1.
  destruct (is_peer_termination exc); reflexivity.
Qed.

Lemma write_eof_run (w : World) :
  write_eof w =
    (Return tt,
     if _eof w then w
     else if (write_buffer_size w =? 0)%N
          then set_log (log w ++ [HShutdown]) (set_eof true w)
          else set_eof true w).
Proof.
  destruct w as [pr dr co pa ef cl lo fc hw lw sv cd sz rd rq lg].
  unfold write_eof, _shutdown, emit, _get_write_buffer_size, bind, gets,
    modify; cbn.
  destruct ef; [reflexivity|]. cbn.
  destruct (sz =? 0)%N; reflexivity.
Qed.

Lemma run_ready_lost_count (w : World) :
  count is_lost (log (exec run_ready w))
  = (count is_lost (log w) + bump (lost_on_run_ready w))%nat.
Proof.
  unfold run_ready, lost_on_run_ready. rewrite exec_bind.
  cbn [result gets fst]. change (exec (gets ready) w) with w.
  destruct (ready w) as [|h rest];
    [change (exec (ret tt) w) with w; unfold bump; lia|].
  rewrite exec_bind. cbn [result modify fst].
  change (exec (modify (set_ready rest)) w) with (set_ready rest w).
  destruct h as [|exc]; cbn [run_handle].
  - cbn [bump]. rewrite Nat.add_0_r.
    assert (P : preserves (fun w0 => count is_lost (log w0)
                                     = count is_lost (log w))
                  (try_except_Exception _call_connection_made
                     (fun exc =>
                        call_exception_handler "Exception in callback" exc)))
      by preserve_with no_known lost_side.
    apply P. reflexivity.
  - unfold exec, try_except_Exception.
    rewrite call_connection_lost_run.
    change (_closed (set_ready rest w)) with (_closed w).
    destruct (_closed w); [cbn; lia|cbn [negb andb bump snd]].
    assert (T : count is_lost (log (torn_down exc (set_ready rest w)))
                = (count is_lost (log w)
                   + bump (_protocol_connected w && has_protocol w))%nat).
    { rewrite torn_down_counts, teardown_callback_lost.
      pose proof (teardown_cleanup_counts (set_ready rest w)) as (Q & _).
      rewrite Q. unfold has_protocol. cbn. lia. }
    destruct (teardown_outcome exc (set_ready rest w)) as [[]|e];
      cbn [snd]; [exact T|].
    destruct (is_Exception e); cbn [snd]; [|exact T].
    unfold call_exception_handler, emit, modify. cbn [snd set_log log].
    rewrite count_snoc. cbn. rewrite Nat.add_0_r. exact T.
Qed.

(** Which operations invoke [connection_lost], and by which mechanism:
    only the loop running a ready handle and the write-completion hook do;
    [close()] and the forced close (behind [abort()] and the fatal-error
    path) only schedule the final teardown; the hook runs it inline and
    schedules nothing. *)
Lemma lost_delivery_paths (HIGH LOW : Z) (op : Op) (exc : option Exn)
  (e : Exn) (throw : bool) (w : World) :
  count is_lost (log (step HIGH LOW w op))
  = (count is_lost (log w)
     + match op with
       | Run_ready => bump (lost_on_run_ready w)
       | On_write => bump (lost_on_write w)
       | _ => 0
       end)%nat
  /\ _force_close exc w =
       (Return tt,
        if (0 <? _conn_lost w)%N || _closed w then w
        else lost_scheduled (if _closing w then w else closing_started w))
  /\ _fatal_error e throw w =
       _force_close None
         (if is_peer_termination e then w
          else set_log
                 (log w ++ [ExceptionHandler "Fatal error on transport" e]) w)
  /\ ready (exec _on_write w) = ready w
  /\ count is_lost_schedule (log (exec _on_write w))
     = count is_lost_schedule (log w).
Proof.
  split; [|split; [apply force_close_run|split; [apply fatal_error_run|]]].
  - unfold step.
    destruct op;
      try (rewrite Nat.add_0_r;
           refine (other_operations_keep_lost HIGH LOW _ _ _ _ w eq_refl);
           discriminate).
    + apply on_write_lost_count.
    + apply run_ready_lost_count.
  - apply on_write_schedules_nothing.
Qed.

(** C3, evaluated on a connected transport that [close()] left draining
    one byte, once the byte is flushed: the write-completion hook invokes
    [connection_lost] itself.  Nothing was waiting in the loop's queue,
    the hook puts nothing there, and no deferred call of the final
    teardown was ever scheduled. *)
Theorem on_write_invokes_connection_lost_inline :
  let w := closing_drained in
  let w' := step HIGH_64K LOW_16K w On_write in
  count is_lost (log w) = 0%nat
  /\ ready w = []
  /\ log w' = log w ++ [ConnectionLost None; HClose]
  /\ ready w' = []
  /\ count is_lost_schedule (log w') = 0%nat.
Proof. vm_compute. repeat split. Qed.

(** C4. [close()] does nothing on a transport that is closing or closed.
    Otherwise it marks the transport closing and stops reading; with an
    empty write buffer it then counts the loss and schedules the final
    teardown as a deferred call; with a non-empty buffer it schedules
    nothing.  In no case does [close()] itself invoke [connection_lost].
    The write-completion hook invokes it exactly when the buffer is empty
    on a closing, not yet closed transport whose [connection_made] was
    delivered; on the state [close()] left, after the handle flushed [n]
    bytes, that is exactly when those [n] bytes emptied the buffer. *)
Theorem close_defers_until_drained (w w2 : World) (n : N) :
  close w =
    (Return tt,
     if _closing w || _closed w then w
     else if (write_buffer_size w =? 0)%N
          then lost_scheduled (closing_started w)
          else closing_started w)
  /\ count is_lost (log (exec close w)) = count is_lost (log w)
  /\ count is_lost (log (exec _on_write w2))
     = (count is_lost (log w2) + bump (lost_on_write w2))%nat
  /\ (let w3 := exec (flushed n) (closing_started w) in
      lost_on_write w3 =
        negb (resume_escapes w3)
        && (write_buffer_size w - n =? 0)%N
        && negb (_closed w)
        && _protocol_connected w
        && has_protocol w).
Proof.
  split; [apply close_run|].
  split; [|split; [apply on_write_lost_count|]].
  - unfold exec. rewrite close_run. cbn [snd].
    destruct (_closing w || _closed w); [reflexivity|].
    destruct (write_buffer_size w =? 0)%N;
      unfold lost_scheduled, closing_started; cbn;
      rewrite ?count_snoc; cbn; lia.
  - cbn zeta. unfold lost_on_write. cbn.
    now rewrite andb_true_r.
Qed.

(** C7, as the code has it.  [write_eof()] does nothing when EOF was
    already requested.  Otherwise it marks EOF requested and, with an empty
    write buffer, shuts the handle down at once; with a non-empty buffer it
    does not.  The write-completion hook performs the shutdown exactly
    when the buffer is empty, EOF was requested and the transport is not
    closing: on a closing transport the hook runs the final teardown
    instead.  On the state [write_eof()] left, after the handle flushed
    [n] bytes, the hook shuts down exactly when those bytes emptied the
    buffer and the transport is not closing. *)
Theorem write_eof_shutdown_unless_closing (w w2 : World) (n : N) :
  write_eof w =
    (Return tt,
     if _eof w then w
     else if (write_buffer_size w =? 0)%N
          then set_log (log w ++ [HShutdown]) (set_eof true w)
          else set_eof true w)
  /\ count is_shutdown (log (exec _on_write w2))
     = (count is_shutdown (log w2) + bump (shutdown_on_write w2))%nat
  /\ (let w3 := exec (flushed n) (set_eof true w) in
      shutdown_on_write w3 =
        negb (resume_escapes w3)
        && (write_buffer_size w - n =? 0)%N
        && negb (_closing w)).
Proof.
  split; [apply write_eof_run|].
  split; [apply on_write_shutdown_count|].
  cbn zeta. unfold shutdown_on_write. cbn.
  now rewrite andb_true_r.
Qed.

(** ** The theorems at concrete transports *)

(** C2 on a connected transport with limits 100/25 and 150 bytes
    buffered: the pause check fires, once. *)
Lemma pause_resume_exactly_when_due_witness :
  _protocol flooded = Some quiet_protocol
  /\ pause_due flooded = true
  /\ exec _maybe_pause_protocol flooded =
       set_log (log flooded ++ [PauseWriting])
         (set_protocol_paused true flooded)
  /\ exec _maybe_resume_protocol flooded = flooded.
Proof.
  split; [reflexivity|]. split; [reflexivity|].
  destruct (pause_resume_exactly_when_due flooded quiet_protocol eq_refl)
    as [P R].
  split; [rewrite P|rewrite R]; vm_compute; reflexivity.
Defined.

(** C9 at [set_write_buffer_limits(high=10, low=20)]. *)
Lemma limits_rejected_iff_invalid_witness :
  fits_int 10 = true
  /\ fits_int 20 = true
  /\ ~ limits_valid 10 20
  /\ set_write_buffer_limits HIGH_64K LOW_16K (Some 10) (Some 20) fresh
     = (Raise (ValueError 10 20), fresh).
Proof.
  split; [reflexivity|]. split; [reflexivity|].
  assert (N : ~ limits_valid 10 20) by (unfold limits_valid; lia).
  split; [exact N|].
  exact (proj1 (proj2 (limits_rejected_iff_invalid HIGH_64K LOW_16K
                         (Some 10) (Some 20) fresh eq_refl eq_refl)) N).
Defined.

(** C6 at [set_write_buffer_limits(low=100)] on a fresh transport. *)
Lemma limits_defaults_as_coded_witness :
  let w' := exec (set_write_buffer_limits HIGH_64K LOW_16K None (Some 100))
              fresh in
  fits_int (arg_int None) = true
  /\ fits_int (arg_int (Some 100)) = true
  /\ _high_water w' = LOW_16K
  /\ _low_water w' = 100.
Proof.
  cbn zeta. split; [reflexivity|]. split; [reflexivity|].
  exact (proj1 (limits_defaults_as_coded HIGH_64K LOW_16K None (Some 100)
                  fresh eq_refl eq_refl)).
Defined.

(** C6, the claim as stated, refuted: with the high-water constant at
    65536 and the low-water constant at 16384, [set_write_buffer_limits(
    low=100)] is accepted and leaves the high threshold at the low-water
    constant, not at the high-water constant. *)
Lemma limits_high_default_depends_on_low :
  let call := set_write_buffer_limits HIGH_64K LOW_16K None (Some 100) in
  result call fresh = Return tt
  /\ _high_water (exec call fresh) = LOW_16K
  /\ _high_water (exec call fresh)
     <> spec_defaulted_high HIGH_64K LOW_16K None (Some 100)
  /\ _low_water (exec call fresh)
     = spec_defaulted_low HIGH_64K LOW_16K None (Some 100).
Proof. vm_compute. repeat split. discriminate. Qed.

(** C7, the claim as stated, refuted: on a connected transport that is
    closing with one byte still buffered, the first [write_eof()] marks EOF
    requested without shutting down; when the byte is flushed and the
    write-completion hook runs, the handle is released and no shutdown was
    ever performed. *)
Lemma write_eof_shutdown_skipped_when_closing :
  let w' := step HIGH_64K LOW_16K closing_eof_drained On_write in
  _eof closing_eof_before = false
  /\ write_buffer_size closing_eof_before = 1%N
  /\ _eof closing_eof_drained = true
  /\ write_buffer_size closing_eof_drained = 0%N
  /\ count is_shutdown (log w') = 0%nat
  /\ _closed w' = true.
Proof. vm_compute. repeat split. Qed.

(** C8 on a transport attached to listener 7 whose protocol raises in
    [connection_lost]. *)
Lemma teardown_cleanup_always_runs_witness :
  let w := served_failing in
  let w' := exec (_call_connection_lost None) w in
  _closed w = false
  /\ result (_call_connection_lost None) w = Raise (ApplicationError 0)
  /\ _protocol w' = None
  /\ _server w' = None
  /\ _closed w' = true
  /\ log w' = log w ++ [ConnectionLost None; SrvDetach 7%nat; HClose]
  /\ active_count 7%nat (log w) = 1
  /\ active_count 7%nat (log w') = 0.
Proof.
  cbn zeta. split; [reflexivity|].
  pose proof (teardown_cleanup_always_runs HIGH_64K LOW_16K [] None
                served_failing eq_refl) as (A & _ & C & D & E & F & _ & G & _).
  split; [exact F|]. split; [exact A|]. split; [exact C|].
  split; [exact D|]. split; [exact E|].
  assert (B : active_count 7%nat (log served_failing) = 1)
    by (vm_compute; reflexivity).
  split; [exact B|].
  change (_server served_failing) with (Some 7%nat) in G.
  rewrite G, B. reflexivity.
Defined.

(** C1 on a connection torn down by a fatal error. *)
Lemma connection_lost_once_after_made_witness :
  log (scenario fatal_then_run)
  = fatal_prefix ++ [ConnectionLost None; HClose]
  /\ In ConnectionMade fatal_prefix
  /\ ~ In HClose fatal_prefix.
Proof.
  assert (E : log (run HIGH_64K LOW_16K fatal_then_run
                     (__cinit__ HIGH_64K LOW_16K))
              = fatal_prefix ++ ConnectionLost None :: [HClose])
    by (vm_compute; reflexivity).
  split; [exact E|].
  exact (proj1 (proj2 (connection_lost_once_after_made HIGH_64K LOW_16K
                         fatal_then_run))
           fatal_prefix None [HClose] E).
Defined.

(** C10 on the same connection: the fatal error was [OSError], the
    protocol got [None]. *)
Lemma connection_lost_argument_is_None_witness :
  exists exc : option Exn,
    In (ConnectionLost exc)
      (log (run HIGH_64K LOW_16K fatal_then_run (__cinit__ HIGH_64K LOW_16K)))
    /\ exc = None.
Proof.
  assert (E : log (run HIGH_64K LOW_16K fatal_then_run
                     (__cinit__ HIGH_64K LOW_16K))
              = fatal_prefix ++ ConnectionLost None :: [HClose])
    by (vm_compute; reflexivity).
  assert (H : In (ConnectionLost None)
                (log (run HIGH_64K LOW_16K fatal_then_run
                        (__cinit__ HIGH_64K LOW_16K)))).
  { rewrite E. apply in_or_app. right. left. reflexivity. }
  exists None. split; [exact H|].
  exact (proj1 (proj2 (proj2 (connection_lost_argument_is_None
                                HIGH_64K LOW_16K fatal_then_run)))
           None H).
Defined.

(** ** Scenarios of the specification *)

(** Thresholds 100/25: writing 150 bytes gives exactly one [pause_writing];
    after 130 bytes are flushed the write-completion hook gives exactly one
    [resume_writing]. *)
Example flood_then_drain_pauses_and_resumes_once :
  let before := scenario (connect ++
                  [Set_write_buffer_limits (Some 100) (Some 25);
                   Write bytes_150]) in
  let after := scenario flood_then_drain in
  count is_pause (log before) = 1%nat
  /\ count is_resume (log before) = 0%nat
  /\ _protocol_paused before = true
  /\ count is_pause (log after) = 1%nat
  /\ count is_resume (log after) = 1%nat
  /\ _protocol_paused after = false.
Proof. vm_compute. repeat split. Qed.

(** [abort()] with a non-empty write buffer: [connection_lost] is
    delivered by the forced path when the loop runs the deferred
    teardown, without waiting for the buffer to drain. *)
Example abort_does_not_wait_for_drain :
  let w := scenario (connect ++ [Write one_byte; Abort; Run_ready]) in
  write_buffer_size w = 1%N
  /\ count is_lost (log w) = 1%nat
  /\ _closed w = true.
Proof. vm_compute. repeat split. Qed.

(** Peer EOF with [eof_received()] returning false: the transport closes
    and, the buffer being empty, is torn down by the deferred call. *)
Example eof_declined_closes :
  let w := scenario (connect ++ [On_eof; Run_ready]) in
  _closing w = true
  /\ _closed w = true
  /\ reading w = false
  /\ count is_lost (log w) = 1%nat.
Proof. vm_compute. repeat split. Qed.

(** An integer that does not fit the C [int] parameter is refused at the
    conversion, before any threshold is looked at. *)
Example limits_out_of_range :
  set_write_buffer_limits HIGH_64K LOW_16K (Some (2 ^ 31)) None fresh
  = (Raise OverflowError, fresh).
Proof. reflexivity. Qed.

(** ** Further properties of the transport *)

(** Symbolic execution of a method on a world given by its fields: all
    methods and the monad are unfolded, then every test met on the way is
    split. *)
Ltac unfold_methods :=
  cbv [step perform ignore
       _set_server _set_protocol _maybe_pause_protocol _maybe_resume_protocol
       _call_connection_made _schedule_call_connection_made
       _call_connection_lost _schedule_call_connection_lost _force_close
       _fatal_error abort close is_closing _on_accept _on_read _on_eof _write
       _on_write _set_write_buffer_limits write write_eof can_write_eof
       pause_reading resume_reading get_write_buffer_size
       set_write_buffer_limits get_write_buffer_limits flushed run_handle
       run_ready as_int
       call_protocol invoke _call_soon_handle call_exception_handler
       UVStream__write _get_write_buffer_size _is_reading _start_reading
       _stop_reading _shutdown _close Server__attach Server__detach emit
       exec result bind ret raise gets modify try_except_Exception
       try_finally
       set_protocol set_protocol_data_received set_protocol_connected
       set_protocol_paused set_eof set_closing set_conn_lost set_high_water
       set_low_water set_server set_closed set_write_buffer_size set_reading
       set_ready set_log
       _protocol _protocol_data_received _protocol_connected _protocol_paused
       _eof _closing _conn_lost _flow_control_enabled _high_water _low_water
       _server _closed write_buffer_size reading ready log
       fst snd negb orb andb].

Ltac split_tests :=
  repeat match goal with
         | |- context [match ?x with _ => _ end] =>
             lazymatch x with
             | context [match _ with _ => _ end] => fail
             | _ => destruct x eqn:?; cbv beta iota
             end
         end.

Ltac run_method := unfold_methods; split_tests.

(** Reading a field of an updated world. *)
Ltac simpl_world :=
  cbn [set_protocol set_protocol_data_received set_protocol_connected
       set_protocol_paused set_eof set_closing set_conn_lost set_high_water
       set_low_water set_server set_closed set_write_buffer_size set_reading
       set_ready set_log
       _protocol _protocol_data_received _protocol_connected _protocol_paused
       _eof _closing _conn_lost _flow_control_enabled _high_water _low_water
       _server _closed write_buffer_size reading ready log].

Ltac simpl_world_in H :=
  cbn [set_protocol set_protocol_data_received set_protocol_connected
       set_protocol_paused set_eof set_closing set_conn_lost set_high_water
       set_low_water set_server set_closed set_write_buffer_size set_reading
       set_ready set_log
       _protocol _protocol_data_received _protocol_connected _protocol_paused
       _eof _closing _conn_lost _flow_control_enabled _high_water _low_water
       _server _closed write_buffer_size reading ready log] in H.

(** *** Thresholds *)

Ltac same_world_side :=
  let w := fresh "w" in let H := fresh "H" in intros w H; exact H.

Lemma flow_checks_keep_thresholds :
  preserves thresholds_ordered (_maybe_pause_protocol ;; _maybe_resume_protocol).
Proof. preserve_with no_known same_world_side. Qed.

Lemma set_limits_keeps_thresholds (HIGH LOW high low : Z) :
  preserves thresholds_ordered (_set_write_buffer_limits HIGH LOW high low).
Proof.
  intros w H. unfold _set_write_buffer_limits. cbv zeta.
  set (h := if high =? -1 then _ else _).
  set (l := if low =? -1 then _ else _).
  destruct ((h >=? l) && (l >=? 0)) eqn:V; cbn [negb]; [|exact H].
  apply limits_valid_iff in V.
  rewrite exec_bind. cbn [result modify fst].
  rewrite exec_bind. cbn [result modify fst].
  apply flow_checks_keep_thresholds. exact V.
Qed.

Lemma operation_keeps_thresholds (HIGH LOW : Z) (op : Op) :
  preserves thresholds_ordered (perform HIGH LOW op).
Proof.
  assert (W : forall buf, preserves thresholds_ordered (write buf))
    by (intro buf; preserve_with no_known same_world_side).
  assert (WL : forall bufs, preserves thresholds_ordered (writelines bufs)).
  { induction bufs as [|buf bufs IH]; cbn [writelines].
    - apply preserves_ret.
    - apply preserves_bind; [apply W|intros _; exact IH]. }
  destruct op; cbn [perform];
    preserve_with
      ltac:(first [ apply WL | apply set_limits_keeps_thresholds ])
      same_world_side.
Qed.

(** X1. The thresholds stay ordered.  If the two flow-control constants
    satisfy [high >= low >= 0], then after any sequence of operations on a
    fresh transport [_high_water >= _low_water >= 0]: a rejected
    [set_write_buffer_limits] leaves them alone and an accepted one
    installs an ordered pair. *)
Theorem thresholds_stay_ordered (HIGH LOW : Z) (ops : list Op) :
  HIGH >= LOW -> LOW >= 0 ->
  let w := run HIGH LOW ops (__cinit__ HIGH LOW) in
  _high_water w >= _low_water w /\ _low_water w >= 0.
Proof.
  intros H1 H2.
  apply (run_keeps thresholds_ordered HIGH LOW
           (operation_keeps_thresholds HIGH LOW) ops).
  split; assumption.
Qed.

Lemma flow_checks_limits (w : World) :
  _high_water (exec (_maybe_pause_protocol ;; _maybe_resume_protocol) w)
  = _high_water w
  /\ _low_water (exec (_maybe_pause_protocol ;; _maybe_resume_protocol) w)
     = _low_water w.
Proof.
  rewrite exec_bind.
  pose proof (maybe_pause_protocol_limits w) as [P1 P2].
  destruct (result _maybe_pause_protocol w); [|split; assumption].
  pose proof (maybe_resume_protocol_limits (exec _maybe_pause_protocol w))
    as [R1 R2].
  rewrite R1, R2. split; assumption.
Qed.

Lemma get_write_buffer_limits_result (w : World) :
  result get_write_buffer_limits w = Return (_low_water w, _high_water w).
Proof. reflexivity. Qed.

Lemma flow_checks_not_due (w : World) :
  pause_due w = false -> resume_due w = false ->
  (_maybe_pause_protocol ;; _maybe_resume_protocol) w = (Return tt, w).
Proof.
  intros Hp Hr. unfold bind. rewrite maybe_pause_protocol_run, Hp.
  pose proof (maybe_resume_protocol_exec w) as X. rewrite Hr in X.
  assert (Y : result _maybe_resume_protocol w = Return tt).
  { apply maybe_resume_protocol_result_escapes.
    unfold resume_escapes. now rewrite Hr. }
  unfold exec in X. unfold result in Y.
  destruct (_maybe_resume_protocol w) as [r w']. cbn in X, Y. now subst.
Qed.

(** X2. Setting and reading back the limits.  Whatever the state, when
    [set_write_buffer_limits(high, low)] is given two C ints with
    [high >= low >= 0] and, under the new thresholds, neither
    [pause_writing] nor [resume_writing] is due (so that no callback
    runs), the call returns normally, changes the two thresholds and
    nothing else, and [get_write_buffer_limits()] then returns the pair in
    the order [(low, high)]. *)
Theorem limits_set_then_get (HIGH LOW h l : Z) (w : World) :
  fits_int h = true -> fits_int l = true -> h >= l -> l >= 0 ->
  pause_due (set_low_water l (set_high_water h w)) = false ->
  resume_due (set_low_water l (set_high_water h w)) = false ->
  set_write_buffer_limits HIGH LOW (Some h) (Some l) w
  = (Return tt, set_low_water l (set_high_water h w))
  /\ result get_write_buffer_limits
       (exec (set_write_buffer_limits HIGH LOW (Some h) (Some l)) w)
     = Return (l, h).
Proof.
  intros Fh Fl Hhl Hl Hp Hr.
  pose proof (set_write_buffer_limits_unfold HIGH LOW (Some h) (Some l) w Fh Fl)
    as E.
  cbn zeta in E. unfold defaulted_low, defaulted_high, unspecified, arg_int in E.
  assert (Nh : (h =? -1) = false) by (apply Z.eqb_neq; lia).
  assert (Nl : (l =? -1) = false) by (apply Z.eqb_neq; lia).
  rewrite Nh, Nl in E.
  assert (V : (h >=? l) && (l >=? 0) = true)
    by (apply limits_valid_iff; split; assumption).
  rewrite V in E.
  rewrite (flow_checks_not_due _ Hp Hr) in E.
  split; [exact E|].
  unfold exec. rewrite E. cbn [snd].
  rewrite get_write_buffer_limits_result.
  destruct w; reflexivity.
Qed.

(** *** [writelines] *)

Lemma write_healthy_run (b : Byte.byte) (buf : bytes) (w : World) :
  _eof w = false -> (_conn_lost w =? 0)%N = true ->
  write (b :: buf) w
  = _maybe_pause_protocol (exec (UVStream__write (b :: buf)) w).
Proof.
  intros He Hc. unfold write. unfold bind at 1, gets at 1; cbn.
  rewrite He. unfold bind at 1, gets at 1; cbn. rewrite Hc. cbn [negb].
  unfold _write. rewrite bind_assoc.
  unfold bind at 1. rewrite UVStream__write_exec.
  apply maybe_pause_protocol_twice.
Qed.

(** A write on a healthy transport that does not bring the pause check
    to fire: the bytes are handed to the stream handle and nothing else
    happens. *)
Lemma write_without_pause (buf : bytes) (w : World) :
  _eof w = false -> _conn_lost w = 0%N ->
  no_pause_ahead (N.of_nat (List.length buf)) w ->
  write buf w =
    (Return tt,
     match buf with
     | [] => w
     | _ :: _ => exec (UVStream__write buf) w
     end).
Proof.
  intros He Hc Hq. destruct buf as [|b buf].
  - unfold write, bind, gets, ret. now rewrite He.
  - rewrite write_healthy_run; [|exact He|now apply N.eqb_eq].
    rewrite maybe_pause_protocol_run.
    replace (pause_due (exec (UVStream__write (b :: buf)) w)) with false;
      [reflexivity|].
    symmetry. unfold exec. rewrite UVStream__write_exec. cbn [snd].
    destruct w as [pr dr co pa ef cl lo fc hw lw sv cd sz rd rq lg].
    unfold no_pause_ahead in Hq. unfold pause_due. cbn in Hq |- *.
    destruct Hq as [-> | [-> | Hq]];
      [reflexivity|now rewrite andb_false_r|].
    replace (hw <? _)
      with false by (symmetry; apply Z.ltb_ge; exact Hq).
    now rewrite andb_false_r.
Qed.

(** X3. On a transport with no EOF requested and no connection loss, a
    [writelines] during which the pause check cannot fire (flow control
    is off, or the protocol is already marked paused, or the buffer with
    all the new bytes stays at or below the high-water mark) returns
    normally, has handed every non-empty buffer to the stream handle, one
    [_write] each, has grown the write buffer by the total number of
    bytes, and has made no protocol callback. *)
Theorem writelines_enqueues_everything (bufs : list bytes) (w : World) :
  _eof w = false -> _conn_lost w = 0%N ->
  (_flow_control_enabled w = false
   \/ _protocol_paused w = true
   \/ Z.of_N (write_buffer_size w + total_length bufs) <= _high_water w) ->
  let w' := exec (writelines bufs) w in
  result (writelines bufs) w = Return tt
  /\ write_buffer_size w' = (write_buffer_size w + total_length bufs)%N
  /\ count is_hwrite (log w')
     = (count is_hwrite (log w) + nonempty_count bufs)%nat
  /\ count is_callback (log w') = count is_callback (log w).
Proof.
  revert w. induction bufs as [|buf bufs IH]; intros w He Hc Hq; cbv zeta.
  - change (exec (writelines []) w) with w. cbn.
    repeat split; [now rewrite N.add_0_r|unfold nonempty_count; cbn; lia].
  - cbn [writelines total_length] in *.
    assert (Q1 : no_pause_ahead (N.of_nat (List.length buf)) w).
    { unfold no_pause_ahead. destruct Hq as [Q | [Q | Q]]; [tauto|tauto|].
      right; right. lia. }
    pose proof (write_without_pause buf w He Hc Q1) as W.
    set (w1 := match buf with
               | [] => w
               | _ :: _ => exec (UVStream__write buf) w
               end) in *.
    assert (R : result (write buf) w = Return tt)
      by (unfold result; now rewrite W).
    assert (X : exec (write buf) w = w1) by (unfold exec; now rewrite W).
    rewrite exec_bind, result_bind, R, X.
    assert (F : _eof w1 = _eof w /\ _conn_lost w1 = _conn_lost w
                /\ _flow_control_enabled w1 = _flow_control_enabled w
                /\ _protocol_paused w1 = _protocol_paused w
                /\ _high_water w1 = _high_water w
                /\ write_buffer_size w1
                   = (write_buffer_size w + N.of_nat (List.length buf))%N
                /\ count is_hwrite (log w1)
                   = (count is_hwrite (log w) + bump (is_nonempty buf))%nat
                /\ count is_callback (log w1) = count is_callback (log w)).
    { subst w1. destruct buf as [|b buf].
      - cbn. repeat split; lia.
      - unfold exec. rewrite UVStream__write_exec. cbn [snd].
        destruct w; cbn. rewrite !count_snoc. cbn. repeat split; lia. }
    destruct F as (F1 & F2 & F3 & F4 & F5 & F6 & F7 & F8).
    assert (He1 : _eof w1 = false) by congruence.
    assert (Hc1 : _conn_lost w1 = 0%N) by congruence.
    assert (Hq1 : _flow_control_enabled w1 = false
                  \/ _protocol_paused w1 = true
                  \/ Z.of_N (write_buffer_size w1 + total_length bufs)
                     <= _high_water w1).
    { rewrite F3, F4, F5, F6. destruct Hq as [Q | [Q | Q]]; [tauto|tauto|].
      right; right. now rewrite <- N.add_assoc. }
    destruct (IH w1 He1 Hc1 Hq1) as (S0 & S1 & S2 & S3).
    rewrite S1, S2, S3, F6, F7, F8.
    split; [exact S0|].
    unfold nonempty_count; cbn [filter].
    destruct (is_nonempty buf); cbn [bump List.length]; repeat split; lia.
Qed.

Lemma set_conn_lost_same (w : World) : set_conn_lost (_conn_lost w) w = w.
Proof. destruct w; reflexivity. Qed.

(** X4. Once the connection is lost (and no EOF was requested), [writelines]
    never raises and never enqueues: it only counts, adding one to
    [_conn_lost] for every non-empty buffer, as long as the 32-bit counter
    has room for them. *)
Theorem writelines_after_loss_only_counts (bufs : list bytes) (w : World) :
  _eof w = false -> (0 < _conn_lost w)%N ->
  (_conn_lost w + N.of_nat (nonempty_count bufs) < 2 ^ 32)%N ->
  writelines bufs w =
    (Return tt,
     set_conn_lost (_conn_lost w + N.of_nat (nonempty_count bufs))%N w).
Proof.
  revert w. induction bufs as [|buf bufs IH]; intros w He Hc Hb.
  - unfold nonempty_count; cbn. rewrite N.add_0_r, set_conn_lost_same.
    reflexivity.
  - assert (C : nonempty_count (buf :: bufs)
                = (bump (is_nonempty buf) + nonempty_count bufs)%nat)
      by (unfold nonempty_count; cbn [filter];
          destruct (is_nonempty buf); reflexivity).
    rewrite C in Hb |- *.
    cbn [writelines]. unfold bind at 1.
    assert (W : write buf w =
                (Return tt,
                 set_conn_lost
                   (_conn_lost w + N.of_nat (bump (is_nonempty buf)))%N w)).
    { unfold write, bind, gets, modify, ret. rewrite He.
      destruct buf as [|b buf]; cbn [is_nonempty bump] in *.
      - cbn. now rewrite N.add_0_r, set_conn_lost_same.
      - destruct (N.eqb_spec (_conn_lost w) 0) as [E|E]; [lia|].
        cbn [negb]. rewrite incr_uint32_small by lia. reflexivity. }
    rewrite W.
    rewrite IH by (destruct w; cbn in *; try assumption; lia).
    f_equal.
    destruct w; unfold set_conn_lost; cbn. f_equal. lia.
Qed.

(** X5. After [write_eof()], [write] raises for any data, empty or not, and
    [writelines] raises as soon as it is given a buffer; neither changes
    anything.  Only [writelines] of no buffers at all still returns. *)
Theorem nothing_written_after_write_eof (buf : bytes) (bufs : list bytes)
  (w : World) :
  let w' := exec write_eof w in
  write buf w'
  = (Raise (RuntimeError "Cannot call write() after write_eof()"), w')
  /\ writelines bufs w'
     = match bufs with
       | [] => (Return tt, w')
       | _ :: _ =>
           (Raise (RuntimeError "Cannot call write() after write_eof()"), w')
       end.
Proof.
  cbv zeta.
  assert (E : _eof (exec write_eof w) = true).
  { unfold exec. rewrite write_eof_run. cbn [snd].
    destruct (_eof w) eqn:He; [exact He|].
    destruct (write_buffer_size w =? 0)%N; reflexivity. }
  assert (W : forall b, write b (exec write_eof w)
                        = (Raise (RuntimeError
                                    "Cannot call write() after write_eof()"),
                           exec write_eof w)).
  { intros b. unfold write, bind at 1, gets at 1. cbn. now rewrite E. }
  split; [apply W|].
  destruct bufs as [|b bufs]; [reflexivity|].
  cbn [writelines]. unfold bind at 1. now rewrite W.
Qed.

(** *** Helpers: [write] and [writelines] under a preserved property *)

Lemma write_exec (buf : bytes) (w : World) :
  exec (write buf) w =
    if _eof w then w
    else match buf with
         | [] => w
         | _ :: _ =>
             if (_conn_lost w =? 0)%N
             then exec _maybe_pause_protocol (exec (UVStream__write buf) w)
             else set_conn_lost (incr_uint32 (_conn_lost w)) w
         end.
Proof.
  unfold exec, write. unfold bind at 1, gets at 1; cbn.
  destruct (_eof w); [reflexivity|].
  destruct buf as [|b buf]; [reflexivity|].
  unfold bind at 1, gets at 1; cbn.
  destruct (_conn_lost w =? 0)%N; cbn [negb]; [|reflexivity].
  unfold _write. rewrite bind_assoc.
  unfold bind at 1. rewrite UVStream__write_exec.
  now rewrite maybe_pause_protocol_twice.
Qed.

Lemma write_keeps (I : World -> Prop) (buf : bytes) :
  (forall w, I w -> _eof w = false -> (_conn_lost w =? 0)%N = false ->
             I (set_conn_lost (incr_uint32 (_conn_lost w)) w)) ->
  (forall w, I w -> _eof w = false -> (_conn_lost w =? 0)%N = true ->
             I (exec (UVStream__write buf) w)) ->
  preserves I _maybe_pause_protocol ->
  preserves I (write buf).
Proof.
  intros Hlost Hput Hpause w H. rewrite write_exec.
  destruct (_eof w) eqn:He; [exact H|].
  destruct buf as [|b buf]; [exact H|].
  destruct (_conn_lost w =? 0)%N eqn:Hc.
  - apply Hpause. apply Hput; assumption.
  - apply Hlost; assumption.
Qed.

Lemma writelines_keeps (I : World -> Prop) :
  (forall buf, preserves I (write buf)) ->
  forall bufs, preserves I (writelines bufs).
Proof.
  intros W. induction bufs as [|buf bufs IH]; cbn [writelines].
  - apply preserves_ret.
  - apply preserves_bind; [apply W|intros _; exact IH].
Qed.

(** *** The lifecycle flags *)

Ltac flags_side :=
  let x := fresh "x" in
  let H1 := fresh "H" in let H2 := fresh "H" in let H3 := fresh "H" in
  intros x (H1 & H2 & H3); unfold no_going_back; cbn;
  repeat split; auto.

Lemma write_no_going_back (w0 : World) (buf : bytes) :
  preserves (no_going_back w0) (write buf).
Proof.
  apply write_keeps.
  - intros w (H1 & H2 & H3) _ _. unfold no_going_back; cbn.
    repeat split; auto.
  - intros w H _ _. revert w H.
    change (preserves (no_going_back w0) (UVStream__write buf)).
    preserve_with no_known flags_side.
  - preserve_with no_known flags_side.
Qed.

(** X6. The lifecycle flags only move forward: no operation clears
    [_closing], [_closed] or [_eof].  (The loss counter is not part of
    this: it is a 32-bit integer and wraps around.) *)
Theorem flags_never_go_back (HIGH LOW : Z) (op : Op) (w : World) :
  (_closing w = true -> _closing (step HIGH LOW w op) = true)
  /\ (_closed w = true -> _closed (step HIGH LOW w op) = true)
  /\ (_eof w = true -> _eof (step HIGH LOW w op) = true).
Proof.
  assert (P : preserves (no_going_back w) (perform HIGH LOW op)).
  { destruct op; cbn [perform];
      preserve_with
        ltac:(first [ apply write_no_going_back
                    | apply writelines_keeps; intro;
                      apply write_no_going_back ])
        flags_side. }
  apply P. unfold no_going_back. repeat split; auto.
Qed.
(** *** The final teardown is scheduled at most once *)

Ltac schedule_side :=
  let x := fresh "x" in
  let H1 := fresh "H" in let H2 := fresh "H" in let H3 := fresh "H" in
  let H4 := fresh "H" in let H5 := fresh "H" in
  intros x (H1 & H2 & H3 & H4 & H5); unfold schedule_invariant; cbn;
  rewrite ?count_snoc; cbn [is_lost_schedule bump];
  rewrite ?Nat.add_0_r; repeat split; auto.

Lemma schedule_invariant_weaken (b b' : N) (w : World) :
  (b' <= b)%N -> schedule_invariant b w -> schedule_invariant b' w.
Proof.
  intros L (H1 & H2 & H3 & H4 & H5).
  unfold schedule_invariant. repeat split; auto; lia.
Qed.

Lemma close_keeps_schedule (b : N) : preserves (schedule_invariant b) close.
Proof.
  intros w Hinv. pose proof Hinv as (H1 & H2 & H3 & H4 & H5).
  unfold exec. rewrite close_run. cbn [snd].
  destruct (_closing w) eqn:Hc; cbn [orb]; [exact Hinv|].
  assert (L : (_conn_lost w = 0)%N).
  { destruct (N.eq_dec (_conn_lost w) 0) as [E|E]; [exact E|].
    assert (T : false = true) by (apply H3; lia). discriminate. }
  assert (C : count is_lost_schedule (log w) = 0%nat).
  { destruct (count is_lost_schedule (log w)) eqn:E; [reflexivity|].
    assert (0 < _conn_lost w)%N by (apply H2; lia). lia. }
  destruct (_closed w); [exact Hinv|].
  destruct (write_buffer_size w =? 0)%N;
    unfold schedule_invariant, lost_scheduled, closing_started; cbn;
    rewrite ?count_snoc, C, ?L, ?incr_uint32_zero;
    cbn [is_lost_schedule bump];
    repeat split; auto; lia.
Qed.

Lemma force_close_keeps_schedule (b : N) (exc : option Exn) :
  preserves (schedule_invariant b) (_force_close exc).
Proof.
  intros w Hinv. pose proof Hinv as (H1 & H2 & H3 & H4 & H5).
  unfold exec. rewrite force_close_run. cbn [snd].
  destruct (0 <? _conn_lost w)%N eqn:Hl; cbn [orb]; [exact Hinv|].
  apply N.ltb_ge in Hl.
  assert (L : (_conn_lost w = 0)%N) by lia.
  assert (C : count is_lost_schedule (log w) = 0%nat).
  { destruct (count is_lost_schedule (log w)) eqn:E; [reflexivity|].
    assert (0 < _conn_lost w)%N by (apply H2; lia). lia. }
  destruct (_closed w); [exact Hinv|].
  destruct (_closing w) eqn:Hcl;
    unfold schedule_invariant, lost_scheduled, closing_started; cbn;
    rewrite ?count_snoc, C, ?L, ?incr_uint32_zero;
    cbn [is_lost_schedule bump];
    repeat split; auto; lia.
Qed.

(** A write takes one unit of the budget when it is given data. *)
Lemma write_spends_budget (b : N) (buf : bytes) (w : World) :
  schedule_invariant (b + N.of_nat (bump (is_nonempty buf))) w ->
  schedule_invariant b (exec (write buf) w).
Proof.
  intros H.
  assert (H0 : schedule_invariant b w)
    by (eapply schedule_invariant_weaken; [|exact H]; lia).
  rewrite write_exec.
  destruct (_eof w); [exact H0|].
  destruct buf as [|x buf]; [exact H0|].
  cbn [is_nonempty bump] in H.
  destruct (_conn_lost w =? 0)%N eqn:Hc.
  - assert (P : preserves (schedule_invariant b)
                  (UVStream__write (x :: buf) ;; _maybe_pause_protocol))
      by (preserve_with no_known schedule_side).
    specialize (P w H0). rewrite exec_bind in P.
    unfold result at 1 in P. rewrite UVStream__write_exec in P. exact P.
  - apply N.eqb_neq in Hc. destruct H as (H1 & H2 & H3 & H4 & H5).
    rewrite incr_uint32_small by lia.
    unfold schedule_invariant; cbn. repeat split; auto; try lia.
    intros _. apply H3. lia.
Qed.

Lemma writelines_spends_budget (b : N) (bufs : list bytes) (w : World) :
  schedule_invariant (b + N.of_nat (nonempty_count bufs)) w ->
  schedule_invariant b (exec (writelines bufs) w).
Proof.
  revert w. induction bufs as [|buf bufs IH]; intros w H.
  - eapply schedule_invariant_weaken; [|exact H]. lia.
  - assert (C : nonempty_count (buf :: bufs)
                = (bump (is_nonempty buf) + nonempty_count bufs)%nat)
      by (unfold nonempty_count; cbn [filter];
          destruct (is_nonempty buf); reflexivity).
    rewrite C in H.
    assert (H' : schedule_invariant
                   ((b + N.of_nat (nonempty_count bufs))
                    + N.of_nat (bump (is_nonempty buf))) w)
      by (eapply schedule_invariant_weaken; [|exact H]; lia).
    apply write_spends_budget in H'.
    cbn [writelines]. rewrite exec_bind.
    destruct (result (write buf) w).
    + apply IH. exact H'.
    + eapply schedule_invariant_weaken; [|exact H']. lia.
Qed.

Lemma operation_spends_budget (HIGH LOW : Z) (b : N) (op : Op) (w : World) :
  schedule_invariant (b + N.of_nat (writes_of op)) w ->
  schedule_invariant b (step HIGH LOW w op).
Proof.
  unfold step.
  destruct op; cbn [perform writes_of];
    try apply write_spends_budget; try apply writelines_spends_budget;
    rewrite N.add_0_r; revert w;
    match goal with
    | |- forall w, _ -> schedule_invariant _ (exec ?m w) =>
        change (preserves (schedule_invariant b) m)
    end;
    preserve_with
      ltac:(first [ apply close_keeps_schedule
                  | apply force_close_keeps_schedule ])
      schedule_side.
Qed.

Lemma run_spends_budget (HIGH LOW : Z) (ops : list Op) :
  forall (b : N) (w : World),
    schedule_invariant (b + N.of_nat (writes_in ops)) w ->
    schedule_invariant b (run HIGH LOW ops w).
Proof.
  induction ops as [|op ops IH]; intros b w H.
  - cbn in H. now rewrite N.add_0_r in H.
  - cbn [run fold_left]. apply IH. apply operation_spends_budget.
    cbn [writes_in] in H.
    eapply schedule_invariant_weaken; [|exact H]. lia.
Qed.

(** X7. On a fresh transport, whatever is called and in whatever order, as
    long as fewer than 2^32 - 1 non-empty buffers are written (so that the
    32-bit loss counter cannot wrap around), the deferred final teardown
    is put on the loop at most once, and the connection-loss counter is
    positive only on a transport marked closing. *)
Theorem teardown_scheduled_at_most_once (HIGH LOW : Z) (ops : list Op) :
  (N.of_nat (writes_in ops) < 2 ^ 32 - 1)%N ->
  let w := run HIGH LOW ops (__cinit__ HIGH LOW) in
  (count is_lost_schedule (log w) <= 1)%nat
  /\ ((0 <? _conn_lost w)%N = true -> _closing w = true).
Proof.
  intros Hb. cbv zeta.
  assert (I0 : schedule_invariant (0 + N.of_nat (writes_in ops))
                 (__cinit__ HIGH LOW)).
  { unfold schedule_invariant, count; cbn. repeat split; lia. }
  pose proof (run_spends_budget HIGH LOW ops 0 _ I0) as (H1 & _ & H3 & _).
  split; [exact H1|]. intros P. apply H3. now apply N.ltb_lt.
Qed.

(** Why the bound is there: on a lost connection whose counter stands at
    2^32 - 1, one more discarded write takes the counter back to 0, and
    [abort()] then schedules the teardown a second time. *)
Example teardown_rescheduled_after_wrap :
  count is_lost_schedule (log lost_counter_at_max) = 1%nat
  /\ count is_lost_schedule
       (log (run HIGH_64K LOW_16K [Write one_byte; Abort]
               lost_counter_at_max)) = 2%nat.
Proof. split; vm_compute; reflexivity. Qed.

(** *** After the connection is lost *)

Ltac lost_inv_side :=
  let x := fresh "x" in
  let H1 := fresh "H" in let H2 := fresh "H" in let H3 := fresh "H" in
  let H4 := fresh "H" in let H5 := fresh "H" in
  intros x (H1 & H2 & H3 & H4 & H5); unfold lost_invariant; cbn;
  rewrite ?count_snoc; cbn [is_hwrite bump];
  rewrite ?Nat.add_0_r; repeat split; auto; lia.

Lemma lost_invariant_weaken (c : nat) (s b b' : N) (w : World) :
  (b' <= b)%N -> lost_invariant c s b w -> lost_invariant c s b' w.
Proof.
  intros L (H1 & H2 & H3 & H4 & H5).
  unfold lost_invariant. repeat split; auto; lia.
Qed.

Lemma close_keeps_lost_invariant (c : nat) (s b : N) :
  preserves (lost_invariant c s b) close.
Proof.
  intros w H. pose proof H as (_ & H2 & _).
  unfold exec. rewrite close_run. cbn [snd]. now rewrite H2.
Qed.

Lemma force_close_keeps_lost_invariant (c : nat) (s b : N)
  (exc : option Exn) :
  preserves (lost_invariant c s b) (_force_close exc).
Proof.
  intros w H. pose proof H as (H1 & _).
  unfold exec. rewrite force_close_run. cbn [snd].
  apply N.ltb_lt in H1. now rewrite H1.
Qed.

(** After the loss a write with data is discarded and takes one unit of
    the budget. *)
Lemma write_after_loss (c : nat) (s b : N) (buf : bytes) (w : World) :
  lost_invariant c s (b + N.of_nat (bump (is_nonempty buf))) w ->
  lost_invariant c s b (exec (write buf) w).
Proof.
  intros H.
  assert (H0 : lost_invariant c s b w)
    by (eapply lost_invariant_weaken; [|exact H]; lia).
  rewrite write_exec.
  destruct (_eof w); [exact H0|].
  destruct buf as [|x buf]; [exact H0|].
  cbn [is_nonempty bump] in H.
  destruct H as (H1 & H2 & H3 & H4 & H5).
  destruct (N.eqb_spec (_conn_lost w) 0) as [E|E]; [lia|].
  rewrite incr_uint32_small by lia.
  unfold lost_invariant; cbn. repeat split; auto; lia.
Qed.

Lemma writelines_after_loss (c : nat) (s b : N) (bufs : list bytes)
  (w : World) :
  lost_invariant c s (b + N.of_nat (nonempty_count bufs)) w ->
  lost_invariant c s b (exec (writelines bufs) w).
Proof.
  revert w. induction bufs as [|buf bufs IH]; intros w H.
  - eapply lost_invariant_weaken; [|exact H]. lia.
  - assert (C : nonempty_count (buf :: bufs)
                = (bump (is_nonempty buf) + nonempty_count bufs)%nat)
      by (unfold nonempty_count; cbn [filter];
          destruct (is_nonempty buf); reflexivity).
    rewrite C in H.
    assert (H' : lost_invariant c s
                   ((b + N.of_nat (nonempty_count bufs))
                    + N.of_nat (bump (is_nonempty buf))) w)
      by (eapply lost_invariant_weaken; [|exact H]; lia).
    apply write_after_loss in H'.
    cbn [writelines]. rewrite exec_bind.
    destruct (result (write buf) w).
    + apply IH. exact H'.
    + eapply lost_invariant_weaken; [|exact H']. lia.
Qed.

Lemma operation_after_loss (HIGH LOW : Z) (c : nat) (s b : N) (op : Op)
  (w : World) :
  lost_invariant c s (b + N.of_nat (writes_of op)) w ->
  lost_invariant c s b (step HIGH LOW w op).
Proof.
  unfold step.
  destruct op; cbn [perform writes_of];
    try apply write_after_loss; try apply writelines_after_loss;
    rewrite N.add_0_r; revert w;
    match goal with
    | |- forall w, _ -> lost_invariant _ _ _ (exec ?m w) =>
        change (preserves (lost_invariant c s b) m)
    end;
    preserve_with
      ltac:(first [ apply close_keeps_lost_invariant
                  | apply force_close_keeps_lost_invariant ])
      lost_inv_side.
Qed.

Lemma run_after_loss (HIGH LOW : Z) (c : nat) (s : N) (ops : list Op) :
  forall (b : N) (w : World),
    lost_invariant c s (b + N.of_nat (writes_in ops)) w ->
    lost_invariant c s b (run HIGH LOW ops w).
Proof.
  induction ops as [|op ops IH]; intros b w H.
  - cbn in H. now rewrite N.add_0_r in H.
  - cbn [run fold_left]. apply IH. apply operation_after_loss.
    cbn [writes_in] in H.
    eapply lost_invariant_weaken; [|exact H]. lia.
Qed.

(** X8. On a transport that lost its connection (the loss counter is
    positive and the transport is marked closing), as long as the 32-bit
    counter has room for the non-empty buffers still written, the counter
    stays positive and no operation sequence hands another byte to the
    stream handle: no further [_write] on the handle, and the write buffer
    never grows again. *)
Theorem no_write_reaches_handle_after_loss (HIGH LOW : Z) (ops : list Op)
  (w : World) :
  (0 < _conn_lost w)%N ->
  _closing w = true ->
  (_conn_lost w + N.of_nat (writes_in ops) < 2 ^ 32)%N ->
  let w' := run HIGH LOW ops w in
  (0 < _conn_lost w')%N
  /\ count is_hwrite (log w') = count is_hwrite (log w)
  /\ (write_buffer_size w' <= write_buffer_size w)%N.
Proof.
  intros Hl Hc Hb. cbv zeta.
  assert (I0 : lost_invariant (count is_hwrite (log w)) (write_buffer_size w)
                 (0 + N.of_nat (writes_in ops)) w).
  { unfold lost_invariant. repeat split; auto; lia. }
  pose proof (run_after_loss HIGH LOW _ _ ops 0 w I0)
    as (H1 & _ & H3 & H4 & _).
  repeat split; assumption.
Qed.

(** *** Without a protocol *)

Ltac unbound_side :=
  let x := fresh "x" in
  let H1 := fresh "H" in let H2 := fresh "H" in let H3 := fresh "H" in
  intros x (H1 & H2 & H3); unfold unbound_invariant; cbn;
  rewrite ?count_snoc; cbn [is_callback bump];
  rewrite ?Nat.add_0_r; repeat split; auto.

Lemma call_protocol_keeps_unbound {A} (c : nat) (ev : Event)
  (method : Protocol -> list Event -> Outcome A) :
  preserves (unbound_invariant c) (call_protocol ev method).
Proof.
  intros w H. pose proof H as (H1 & _).
  unfold exec, call_protocol, bind, gets. cbn. rewrite H1. exact H.
Qed.

Lemma on_read_keeps_unbound (c : nat) (buf : bytes) :
  preserves (unbound_invariant c) (_on_read buf).
Proof.
  intros w H. pose proof H as (_ & H2 & _).
  unfold exec, _on_read, bind, gets. cbn. rewrite H2. exact H.
Qed.

Lemma call_connection_made_keeps_unbound (c : nat) :
  preserves (unbound_invariant c) _call_connection_made.
Proof.
  intros w H. pose proof H as (H1 & _).
  unfold exec, _call_connection_made, bind, gets. cbn. rewrite H1. exact H.
Qed.

Lemma operation_keeps_unbound (HIGH LOW : Z) (c : nat) (op : Op) :
  is_rebind op = false ->
  preserves (unbound_invariant c) (perform HIGH LOW op).
Proof.
  intros Hop.
  assert (W : forall buf, preserves (unbound_invariant c) (write buf)).
  { intro buf.
    preserve_with ltac:(apply call_protocol_keeps_unbound) unbound_side. }
  destruct op; try discriminate; cbn [perform];
    preserve_with
      ltac:(first [ apply call_protocol_keeps_unbound
                  | apply on_read_keeps_unbound
                  | apply call_connection_made_keeps_unbound
                  | apply writelines_keeps; exact W ])
      unbound_side.
Qed.

Lemma run_keeps_unbound (HIGH LOW : Z) (c : nat) (ops : list Op) :
  forallb (fun op => negb (is_rebind op)) ops = true ->
  forall w, unbound_invariant c w -> unbound_invariant c (run HIGH LOW ops w).
Proof.
  induction ops as [|op ops IH]; intros Hops w I0; [exact I0|].
  cbn in Hops. apply andb_true_iff in Hops as [Hop Hops].
  cbn [run fold_left]. apply (IH Hops).
  apply operation_keeps_unbound; [|exact I0].
  now destruct (is_rebind op).
Qed.

(** X9. A transport without a protocol never calls one.  When neither the
    protocol nor the bound [data_received] is set (before binding, and
    again after the final teardown), no sequence of operations that does
    not bind a protocol makes any protocol callback: incoming data,
    EOF, flow-control checks and deferred calls all find nothing to
    call. *)
Theorem unbound_transport_makes_no_callback (HIGH LOW : Z) (ops : list Op)
  (w : World) :
  _protocol w = None ->
  _protocol_data_received w = None ->
  forallb (fun op => negb (is_rebind op)) ops = true ->
  let w' := run HIGH LOW ops w in
  count is_callback (log w') = count is_callback (log w)
  /\ _protocol w' = None
  /\ _protocol_data_received w' = None.
Proof.
  intros H1 H2 Hops. cbv zeta.
  assert (G : unbound_invariant (count is_callback (log w))
                (run HIGH LOW ops w)).
  { apply run_keeps_unbound; [exact Hops|]. repeat split; assumption. }
  destruct G as (G1 & G2 & G3). repeat split; assumption.
Qed.

(** *** Delivery of [connection_made] *)

Lemma pending_made_snoc (queue : list Handle) (h : Handle) :
  pending_made (queue ++ [h])
  = (pending_made queue + bump (is_made_handle h))%nat.
Proof.
  unfold pending_made. rewrite filter_app, length_app. cbn.
  destruct (is_made_handle h); reflexivity.
Qed.

Ltac made_side :=
  let x := fresh "x" in let H := fresh "H" in
  intros x H; unfold made_invariant in *; simpl_world;
  rewrite ?count_snoc, ?pending_made_snoc; cbn [is_made is_made_handle bump];
  rewrite ?Nat.add_0_r; exact H.

Lemma run_ready_keeps_made (n : nat) : preserves (made_invariant n) run_ready.
Proof.
  intros w H.
  destruct w as [pr dr co pa ef cl lo fc hw lw sv cd sz rd rq lg].
  unfold made_invariant in *. cbn [log ready] in H.
  destruct rq as [|[|exc] rest]; unfold pending_made in *; cbn in H;
    run_method; rewrite ?count_snoc;
    cbn [is_made bump filter List.length is_made_handle]; lia.
Qed.

Lemma write_keeps_made (n : nat) (buf : bytes) :
  preserves (made_invariant n) (write buf).
Proof. preserve_with no_known made_side. Qed.

Lemma unaccepting_operation_keeps_made (HIGH LOW : Z) (n : nat) (op : Op) :
  is_accept op = false ->
  preserves (made_invariant n) (perform HIGH LOW op).
Proof.
  intros Hop.
  destruct op; try discriminate; cbn [perform];
    preserve_with
      ltac:(first [ apply run_ready_keeps_made
                  | apply writelines_keeps; intro; apply write_keeps_made ])
      made_side.
Qed.

Lemma operation_keeps_made (HIGH LOW : Z) (n : nat) (op : Op) (w : World) :
  made_invariant n w ->
  made_invariant (n + bump (is_accept op)) (step HIGH LOW w op).
Proof.
  intros H. destruct (is_accept op) eqn:Hop; cbn [bump].
  - destruct op; try discriminate.
    destruct w as [pr dr co pa ef cl lo fc hw lw sv cd sz rd rq lg].
    unfold made_invariant in *. cbn [log ready] in H.
    run_method.
    rewrite count_snoc, pending_made_snoc.
    cbn [is_made is_made_handle bump]. lia.
  - rewrite Nat.add_0_r.
    apply (unaccepting_operation_keeps_made HIGH LOW n op Hop w H).
Qed.

Ltac made_count_side :=
  let x := fresh "x" in let H := fresh "H" in
  intros x H; cbn; rewrite ?count_snoc; cbn [is_made bump];
  rewrite ?Nat.add_0_r; exact H.

Lemma other_operations_keep_made (HIGH LOW : Z) (c : nat) (op : Op) :
  op <> Run_ready ->
  preserves (fun w => count is_made (log w) = c) (perform HIGH LOW op).
Proof.
  intros N1.
  assert (W : forall buf,
             preserves (fun w => count is_made (log w) = c) (write buf))
    by (intro buf; preserve_with no_known made_count_side).
  destruct op; try congruence; cbn [perform];
    preserve_with ltac:(apply writelines_keeps; exact W) made_count_side.
Qed.

(** X10. [connection_made] is only ever invoked by the loop running a ready
    handle: the accept hook and every other operation leave the number of
    invocations as it was.  On a fresh transport it is invoked at most
    once for each accept, whatever else happens in between. *)
Theorem connection_made_only_from_loop (HIGH LOW : Z) (ops : list Op)
  (op : Op) (w : World) :
  match op with
  | Run_ready => True
  | _ => count is_made (log (step HIGH LOW w op)) = count is_made (log w)
  end
  /\ (count is_made (log (run HIGH LOW ops (__cinit__ HIGH LOW)))
      <= accepts ops)%nat.
Proof.
  split.
  - destruct op; try exact Logic.I;
      refine (other_operations_keep_made HIGH LOW _ _ _ w eq_refl);
      discriminate.
  - assert (G : forall ops w n,
               made_invariant n w ->
               made_invariant (n + accepts ops) (run HIGH LOW ops w)).
    { clear. induction ops as [|o ops IH]; intros w n H; cbn [run fold_left].
      - unfold accepts; cbn. now rewrite Nat.add_0_r.
      - replace (n + accepts (o :: ops))%nat
          with ((n + bump (is_accept o)) + accepts ops)%nat
          by (unfold accepts; cbn [filter];
              destruct (is_accept o); cbn [bump List.length]; lia).
        apply IH. now apply operation_keeps_made. }
    specialize (G ops (__cinit__ HIGH LOW) 0%nat).
    unfold made_invariant in G. cbn [Nat.add] in G.
    assert (I0 : (count is_made (log (__cinit__ HIGH LOW))
                  + pending_made (ready (__cinit__ HIGH LOW)) <= 0)%nat)
      by (unfold count, pending_made; cbn; lia).
    specialize (G I0). lia.
Qed.

(** *** A closing transport does not read *)

Ltac quiet_side :=
  let x := fresh "x" in
  let H1 := fresh "H" in let H2 := fresh "H" in
  intros x (H1 & H2); unfold quiet_when_closing; simpl_world;
  rewrite ?pending_made_snoc; cbn [is_made_handle bump];
  rewrite ?Nat.add_0_r; split; auto.

Lemma close_keeps_quiet : preserves quiet_when_closing close.
Proof.
  intros w H. pose proof H as (H1 & H2).
  unfold exec. rewrite close_run. cbn [snd].
  destruct (_closing w || _closed w); [exact H|].
  destruct (write_buffer_size w =? 0)%N;
    unfold quiet_when_closing, lost_scheduled, closing_started; simpl_world;
    rewrite ?pending_made_snoc; cbn [is_made_handle bump];
    rewrite ?Nat.add_0_r; split; auto.
Qed.

Lemma force_close_keeps_quiet (exc : option Exn) :
  preserves quiet_when_closing (_force_close exc).
Proof.
  intros w H. pose proof H as (H1 & H2).
  unfold exec. rewrite force_close_run. cbn [snd].
  destruct ((0 <? _conn_lost w)%N || _closed w); [exact H|].
  destruct (_closing w) eqn:Hc;
    unfold quiet_when_closing, lost_scheduled, closing_started; simpl_world;
    rewrite ?pending_made_snoc; cbn [is_made_handle bump];
    rewrite ?Nat.add_0_r; split; auto.
Qed.

Lemma resume_reading_keeps_quiet : preserves quiet_when_closing resume_reading.
Proof.
  intros w (H1 & H2).
  destruct w as [pr dr co pa ef cl lo fc hw lw sv cd sz rd rq lg].
  unfold quiet_when_closing in *. simpl_world_in H1. simpl_world_in H2.
  run_method; split; auto; discriminate.
Qed.

Lemma run_ready_keeps_quiet : preserves quiet_when_closing run_ready.
Proof.
  intros w (H1 & H2).
  destruct w as [pr dr co pa ef cl lo fc hw lw sv cd sz rd rq lg].
  unfold quiet_when_closing in *. simpl_world_in H1. simpl_world_in H2.
  destruct rq as [|[|exc] rest]; unfold pending_made in *; cbn in H2;
    try discriminate; run_method; split; auto.
Qed.

Lemma operation_keeps_quiet (HIGH LOW : Z) (op : Op) :
  is_accept op = false ->
  preserves quiet_when_closing (perform HIGH LOW op).
Proof.
  intros Hop.
  assert (W : forall buf, preserves quiet_when_closing (write buf))
    by (intro buf; preserve_with no_known quiet_side).
  destruct op; try discriminate; cbn [perform];
    preserve_with
      ltac:(first [ apply close_keeps_quiet
                  | apply force_close_keeps_quiet
                  | apply resume_reading_keeps_quiet
                  | apply run_ready_keeps_quiet
                  | apply writelines_keeps; exact W ])
      quiet_side.
Qed.

(** X11. Closing wins over reading.  Starting from a transport on which no
    [connection_made] is still waiting in the loop and which, if closing,
    is not reading: as long as no new accept arrives, no sequence of
    operations makes a closing transport read again. *)
Theorem closing_transport_never_reads (HIGH LOW : Z) (ops : list Op)
  (w : World) :
  (_closing w = true -> reading w = false) ->
  pending_made (ready w) = 0%nat ->
  forallb (fun op => negb (is_accept op)) ops = true ->
  let w' := run HIGH LOW ops w in
  _closing w' = true -> reading w' = false.
Proof.
  intros H1 H2 Hops. cbv zeta.
  assert (G : forall ops, forallb (fun op => negb (is_accept op)) ops = true ->
              forall w, quiet_when_closing w ->
                        quiet_when_closing (run HIGH LOW ops w)).
  { clear. induction ops as [|op ops IH]; intros Hops w I0; [exact I0|].
    cbn in Hops. apply andb_true_iff in Hops as [Hop Hops].
    cbn [run fold_left]. apply (IH Hops).
    apply operation_keeps_quiet; [|exact I0].
    now destruct (is_accept op). }
  apply (G ops Hops w). split; assumption.
Qed.

(** *** Pauses and resumes alternate *)

Ltac balance_side :=
  let x := fresh "x" in let H := fresh "H" in let Hc := fresh "Hc" in
  intros x H; unfold pause_balance, has_protocol in *; simpl_world;
  intros Hc; first
    [ discriminate
    | let P := fresh "P" in let Q := fresh "Q" in
      destruct (H Hc) as [P Q]; split;
      [ solve [reflexivity | exact P]
      | rewrite ?count_snoc; cbn [is_pause is_resume bump];
        rewrite ?Nat.add_0_r; exact Q ] ].

Lemma isolated_counts (f : Event -> bool) (message : string)
  (r : Outcome unit) :
  (forall m e, f (ExceptionHandler m e) = false) ->
  count f (isolated message r) = 0%nat.
Proof.
  intros F. unfold isolated.
  destruct r as [[]|e]; [reflexivity|].
  destruct (is_Exception e); [|reflexivity].
  rewrite count_cons, count_nil, F. reflexivity.
Qed.

Lemma maybe_pause_keeps_balance : preserves pause_balance _maybe_pause_protocol.
Proof.
  intros w H. rewrite maybe_pause_protocol_exec.
  destruct (pause_due w) eqn:D; [|exact H].
  unfold pause_due in D.
  apply andb_true_iff in D as [D Dp]. apply negb_true_iff in Dp.
  unfold pause_balance in *.
  destruct (_protocol w) as [p|] eqn:Hp; simpl_world; intros Hc;
    destruct (H Hc) as [P Q]; unfold has_protocol in *; rewrite Hp in P;
    [|discriminate].
  simpl_world. rewrite Hp. split; [reflexivity|].
  rewrite Dp in Q. rewrite !count_app, !count_cons.
  rewrite !isolated_counts by reflexivity.
  cbn [is_pause is_resume bump] in *. lia.
Qed.

Lemma maybe_resume_keeps_balance :
  preserves pause_balance _maybe_resume_protocol.
Proof.
  intros w H. rewrite maybe_resume_protocol_exec.
  destruct (resume_due w) eqn:D; [|exact H].
  unfold resume_due in D.
  apply andb_true_iff in D as [D _]. apply andb_true_iff in D as [_ Dp].
  unfold pause_balance in *.
  destruct (_protocol w) as [p|] eqn:Hp; simpl_world; intros Hc;
    destruct (H Hc) as [P Q]; unfold has_protocol in *; rewrite Hp in P;
    [|discriminate].
  simpl_world. rewrite Hp. split; [reflexivity|].
  rewrite Dp in Q. rewrite !count_app, !count_cons.
  rewrite !isolated_counts by reflexivity.
  cbn [is_pause is_resume bump] in *. lia.
Qed.

Lemma call_connection_lost_keeps_balance (exc : option Exn) :
  preserves pause_balance (_call_connection_lost exc).
Proof.
  intros w H. unfold exec. rewrite call_connection_lost_run.
  destruct (_closed w); [exact H|].
  cbn [snd]. unfold pause_balance, torn_down. simpl_world. discriminate.
Qed.

Lemma operation_keeps_balance (HIGH LOW : Z) (op : Op) :
  preserves pause_balance (perform HIGH LOW op).
Proof.
  assert (W : forall buf, preserves pause_balance (write buf)).
  { intro buf.
    preserve_with ltac:(apply maybe_pause_keeps_balance) balance_side. }
  destruct op; cbn [perform];
    preserve_with
      ltac:(first [ apply maybe_pause_keeps_balance
                  | apply maybe_resume_keeps_balance
                  | apply call_connection_lost_keeps_balance
                  | apply writelines_keeps; exact W ])
      balance_side.
Qed.

(** X12. No spurious double pause or resume.  On a transport whose
    protocol was bound right after creation, after any sequence of
    operations and as long as the handle has not been released, the
    number of [pause_writing] invocations is the number of
    [resume_writing] invocations, plus one exactly when the protocol is
    marked paused.  As this holds after every operation, pauses and
    resumes alternate, starting with a pause. *)
Theorem pause_and_resume_alternate (HIGH LOW : Z) (p : Protocol)
  (ops : list Op) :
  let w := run HIGH LOW ops (exec (_set_protocol p) (__cinit__ HIGH LOW)) in
  _closed w = false ->
  count is_pause (log w)
  = (count is_resume (log w) + bump (_protocol_paused w))%nat.
Proof.
  cbv zeta. intros Hc.
  assert (I0 : pause_balance (exec (_set_protocol p) (__cinit__ HIGH LOW)))
    by (intros _; split; reflexivity).
  exact (proj2 (run_keeps pause_balance HIGH LOW
                  (operation_keeps_balance HIGH LOW) ops _ I0 Hc)).
Qed.

(** *** The listener's count *)

Ltac listener_side :=
  let x := fresh "x" in
  let H1 := fresh "H" in let H2 := fresh "H" in
  intros x (H1 & H2); unfold listener_invariant; simpl_world;
  rewrite ?count_snoc; cbn [is_attach_of is_detach_of bump];
  rewrite ?Nat.add_0_r; split; auto.

Lemma set_server_keeps_listener (srv server : Server) :
  preserves (listener_invariant srv) (_set_server server).
Proof.
  intros w (H1 & H2).
  unfold exec, _set_server, Server__attach, emit, bind, modify.
  cbn [snd fst]. unfold listener_invariant. simpl_world.
  rewrite !count_snoc. cbn [is_attach_of is_detach_of bump].
  destruct (Nat.eqb_spec server srv) as [E|E]; cbn [bump].
  - split; [lia|]. intros _. lia.
  - split; [lia|]. intros [= E']. contradiction.
Qed.

Lemma call_connection_lost_keeps_listener (srv : Server) (exc : option Exn) :
  preserves (listener_invariant srv) (_call_connection_lost exc).
Proof.
  intros w H. pose proof H as (H1 & H2).
  unfold exec. rewrite call_connection_lost_run.
  destruct (_closed w); [exact H|]. cbn [snd].
  unfold listener_invariant. rewrite !torn_down_counts.
  rewrite !teardown_callback_other by reflexivity.
  unfold torn_down, teardown_cleanup. simpl_world.
  split; [|discriminate].
  destruct (_server w) as [s|]; rewrite !count_cons, !count_nil;
    cbn [is_attach_of is_detach_of bump]; [|lia].
  destruct (Nat.eqb_spec s srv) as [E|E]; cbn [bump]; [|lia].
  subst s. specialize (H2 eq_refl). lia.
Qed.

Lemma operation_keeps_listener (HIGH LOW : Z) (srv : Server) (op : Op) :
  preserves (listener_invariant srv) (perform HIGH LOW op).
Proof.
  assert (W : forall buf, preserves (listener_invariant srv) (write buf))
    by (intro buf; preserve_with no_known listener_side).
  destruct op; cbn [perform];
    preserve_with
      ltac:(idtac;
            lazymatch goal with
            | |- preserves _ (_set_server _) =>
                apply set_server_keeps_listener
            | |- preserves _ (_call_connection_lost _) =>
                apply call_connection_lost_keeps_listener
            | |- preserves _ (writelines _) =>
                apply writelines_keeps; exact W
            end)
      listener_side.
Qed.

(** X13. The transport never takes more from a listener than it gave.  On a
    fresh transport, after any sequence of operations and for every
    listener, the attachments minus the detachments made by this
    transport are never negative, and at least one attachment is
    outstanding for the listener the transport refers to. *)
Theorem listener_count_never_negative (HIGH LOW : Z) (ops : list Op)
  (srv : Server) :
  let w := run HIGH LOW ops (__cinit__ HIGH LOW) in
  0 <= active_count srv (log w)
  /\ (_server w = Some srv -> 1 <= active_count srv (log w)).
Proof.
  cbv zeta.
  assert (I0 : listener_invariant srv (__cinit__ HIGH LOW)).
  { unfold listener_invariant, count; cbn. split; [lia|discriminate]. }
  pose proof (run_keeps (listener_invariant srv) HIGH LOW
                (operation_keeps_listener HIGH LOW srv) ops _ I0) as (H1 & H2).
  unfold active_count. split; [lia|].
  intros Hs. specialize (H2 Hs). lia.
Qed.

(** *** [close] and [abort] together *)

Lemma close_exec (w : World) :
  exec close w =
    if _closing w || _closed w then w
    else if (write_buffer_size w =? 0)%N
         then lost_scheduled (closing_started w)
         else closing_started w.
Proof. unfold exec. now rewrite close_run. Qed.

Lemma force_close_exec (exc : option Exn) (w : World) :
  exec (_force_close exc) w =
    if (0 <? _conn_lost w)%N || _closed w then w
    else lost_scheduled (if _closing w then w else closing_started w).
Proof. unfold exec. now rewrite force_close_run. Qed.

(** X14. On a transport whose loss counter is positive only if it is closing
    (as on every transport reached from a fresh one): [close()] twice is
    [close()] once, [abort()] twice is [abort()] once, and [abort()]
    absorbs [close()] on either side, so [abort()] after [close()] forces
    the teardown that [close()] left waiting for the drain.  With an empty
    write buffer, [close()] and [abort()] on a transport that is not
    closing are the same operation. *)
Theorem close_and_abort_compose (w : World) :
  ((0 <? _conn_lost w)%N = true -> _closing w = true) ->
  exec close (exec close w) = exec close w
  /\ exec abort (exec abort w) = exec abort w
  /\ exec close (exec abort w) = exec abort w
  /\ exec abort (exec close w) = exec abort w
  /\ (write_buffer_size w = 0%N -> _closing w = false ->
      exec close w = exec abort w).
Proof.
  intros H. unfold abort.
  destruct w as [pr dr co pa ef cl lo fc hw lw sv cd sz rd rq lg].
  simpl_world_in H.
  assert (E : (0 <? incr_uint32 0)%N = true) by reflexivity.
  assert (Z0 : forall x : N, (0 <? x)%N = false -> x = 0%N)
    by (intros x Hx; apply N.ltb_ge in Hx; lia).
  set (w := {| _protocol := pr; _protocol_data_received := dr;
               _protocol_connected := co; _protocol_paused := pa;
               _eof := ef; _closing := cl; _conn_lost := lo;
               _flow_control_enabled := fc; _high_water := hw;
               _low_water := lw; _server := sv; _closed := cd;
               write_buffer_size := sz; reading := rd; ready := rq;
               log := lg |}).
  assert (L : cl = false -> (0 <? lo)%N = false)
    by (intros ->; destruct (0 <? lo)%N; [discriminate (H eq_refl)|reflexivity]).
  repeat split.
  - rewrite (close_exec w). subst w. simpl_world.
    destruct (cl || cd) eqn:C; [rewrite close_exec; simpl_world; now rewrite C|].
    destruct (sz =? 0)%N; rewrite close_exec;
      unfold lost_scheduled, closing_started; simpl_world; reflexivity.
  - rewrite (force_close_exec None w). subst w. simpl_world.
    destruct ((0 <? lo)%N || cd) eqn:C;
      [rewrite force_close_exec; simpl_world; now rewrite C|].
    apply orb_false_iff in C as [Lo _]. apply Z0 in Lo. subst lo.
    destruct cl; rewrite force_close_exec;
      unfold lost_scheduled, closing_started; simpl_world; rewrite E;
      reflexivity.
  - rewrite (force_close_exec None w). subst w. simpl_world.
    destruct (0 <? lo)%N eqn:Lo; cbn [orb].
    + rewrite close_exec. simpl_world. now rewrite (H eq_refl).
    + destruct cd; cbn [orb].
      * rewrite close_exec. simpl_world. now rewrite orb_true_r.
      * destruct cl; rewrite close_exec;
          unfold lost_scheduled, closing_started; simpl_world; reflexivity.
  - rewrite (close_exec w). subst w. simpl_world.
    destruct (cl || cd) eqn:C; [reflexivity|].
    apply orb_false_iff in C as [-> ->].
    specialize (L eq_refl). apply Z0 in L. subst lo.
    destruct (sz =? 0)%N; rewrite !force_close_exec;
      unfold lost_scheduled, closing_started; simpl_world;
      rewrite ?E; cbn [orb N.ltb N.compare]; reflexivity.
  - subst w. simpl_world. intros -> ->. specialize (L eq_refl).
    rewrite close_exec, force_close_exec. simpl_world.
    rewrite L. cbn [orb N.eqb]. destruct cd; reflexivity.
Qed.

(** X15. What [is_closing()] says after [close()] and after [abort()]: true,
    except on a transport that was not closing and whose handle was
    already released (both return early without marking it), and, for
    [abort()], on one that was not closing but already counted a loss. *)
Theorem is_closing_after_close_or_abort (w : World) :
  result is_closing (exec close w)
  = Return (_closing w || negb (_closed w))
  /\ result is_closing (exec abort w)
     = Return (_closing w || negb ((0 <? _conn_lost w)%N || _closed w)).
Proof.
  unfold abort. rewrite close_exec, force_close_exec.
  unfold result, is_closing, gets. cbn [fst].
  destruct w as [pr dr co pa ef cl lo fc hw lw sv cd sz rd rq lg].
  simpl_world. split.
  - destruct cl, cd; cbn [orb negb]; try reflexivity.
    destruct (sz =? 0)%N; reflexivity.
  - destruct (0 <? lo)%N, cd, cl; reflexivity.
Qed.

(** *** Fatal errors *)

(** X16. A fatal error never raises and never invokes [connection_lost]
    itself.  It is reported to the loop's exception handler exactly when
    it is not a broken pipe, a connection reset or a connection abort; and
    in every case the forced close follows, which schedules the final
    teardown exactly when no loss had been counted and the handle had not
    been released. *)
Theorem fatal_error_reports_and_forces (exc : Exn) (throw : bool)
  (w : World) :
  let w' := exec (_fatal_error exc throw) w in
  result (_fatal_error exc throw) w = Return tt
  /\ count is_report (log w')
     = (count is_report (log w) + bump (negb (is_peer_termination exc)))%nat
  /\ count is_lost_schedule (log w')
     = (count is_lost_schedule (log w)
        + bump (negb ((0 <? _conn_lost w)%N || _closed w)))%nat
  /\ count is_lost (log w') = count is_lost (log w).
Proof.
  cbv zeta. unfold exec, result. rewrite fatal_error_run, force_close_run.
  cbn [fst snd]. split; [reflexivity|].
  destruct w as [pr dr co pa ef cl lo fc hw lw sv cd sz rd rq lg].
  destruct (is_peer_termination exc); simpl_world;
    destruct ((0 <? lo)%N || cd); cbn [negb bump];
    try (destruct cl); unfold lost_scheduled, closing_started; simpl_world;
    rewrite ?count_snoc;
    cbn [is_report is_lost_schedule is_lost bump];
    repeat split; lia.
Qed.

(** *** Reading *)

(** X17. Pausing and resuming reading.  On a transport that is reading and not
    closing, [pause_reading()] followed by [resume_reading()] succeeds and
    leaves the transport as it was, the handle having stopped and started
    reading once.  [pause_reading()] never succeeds twice in a row, and
    [resume_reading()] succeeds twice in a row only on a closing transport
    that is not reading, where it does nothing. *)
Theorem pause_then_resume_reading (w : World) :
  (pause_reading ;; resume_reading) w
  = (if _closing w then
       (Raise (RuntimeError "Cannot pause_reading() when closing"), w)
     else if reading w then
       (Return tt, set_log (log w ++ [HStopReading; HStartReading]) w)
     else (Raise (RuntimeError "Already paused"), w))
  /\ result (pause_reading ;; pause_reading) w
     = (if _closing w then
          Raise (RuntimeError "Cannot pause_reading() when closing")
        else Raise (RuntimeError "Already paused"))
  /\ (resume_reading ;; resume_reading) w
     = (if reading w then (Raise (RuntimeError "Not paused"), w)
        else if _closing w then (Return tt, w)
        else (Raise (RuntimeError "Not paused"),
              set_log (log w ++ [HStartReading]) (set_reading true w))).
Proof.
  destruct w as [pr dr co pa ef cl lo fc hw lw sv cd sz rd rq lg].
  repeat split; destruct cl, rd; try reflexivity.
  unfold_methods. cbv beta iota. rewrite <- app_assoc. reflexivity.
Qed.

(** *** Exceptions of the flow-control callbacks *)

Lemma write_result (buf : bytes) (w : World) (e : Exn) :
  result (write buf) w = Raise e ->
  (_eof w = true
   /\ e = RuntimeError "Cannot call write() after write_eof()")
  \/ (_eof w = false /\ is_Exception e = false).
Proof.
  destruct (_eof w) eqn:He.
  - unfold result, write, bind at 1, gets at 1; cbn. rewrite He.
    intros [= <-]. left. split; reflexivity.
  - intros R. right. split; [reflexivity|].
    destruct buf as [|b buf].
    + unfold result, write, bind at 1, gets at 1 in R; cbn in R.
      rewrite He in R. discriminate.
    + destruct (_conn_lost w =? 0)%N eqn:Hc.
      * unfold result in R. rewrite (write_healthy_run b buf w He Hc) in R.
        eapply maybe_pause_protocol_result. exact R.
      * unfold result, write, bind at 1, gets at 1 in R; cbn in R.
        rewrite He in R. unfold bind at 1, gets at 1 in R; cbn in R.
        rewrite Hc in R. discriminate.
Qed.

(** X18. An exception raised by [pause_writing] or [resume_writing] never
    reaches the caller of [write], [writelines] or
    [set_write_buffer_limits] if it derives from [Exception].  What these
    methods raise is their own error (the [RuntimeError] after
    [write_eof()], the [ValueError] or the [OverflowError] of the limits)
    or something outside [Exception] that a callback raised. *)
Theorem flow_control_exceptions_are_isolated (HIGH LOW : Z) (buf : bytes)
  (bufs : list bytes) (high low : option Z) (w : World) :
  match result (write buf) w with
  | Return _ => True
  | Raise e =>
      e = RuntimeError "Cannot call write() after write_eof()"
      \/ is_Exception e = false
  end
  /\ match result (writelines bufs) w with
     | Return _ => True
     | Raise e =>
         e = RuntimeError "Cannot call write() after write_eof()"
         \/ is_Exception e = false
     end
  /\ match result (set_write_buffer_limits HIGH LOW high low) w with
     | Return _ => True
     | Raise e =>
         e = OverflowError
         \/ (exists h l, e = ValueError h l)
         \/ is_Exception e = false
     end.
Proof.
  split; [|split].
  - destruct (result (write buf) w) eqn:R; [exact Logic.I|].
    apply write_result in R. tauto.
  - revert w. induction bufs as [|b bufs IH]; intros w; [exact Logic.I|].
    cbn [writelines]. rewrite result_bind.
    destruct (result (write b) w) eqn:R; [apply IH|].
    apply write_result in R. tauto.
  - unfold set_write_buffer_limits, as_int.
    destruct (fits_int (arg_int high)) eqn:Fh;
      [|unfold arg_int in Fh; rewrite Fh; cbn; now left].
    destruct (fits_int (arg_int low)) eqn:Fl.
    + fold (arg_int high). fold (arg_int low).
      change (match result (set_write_buffer_limits HIGH LOW high low) w with
              | Return _ => True
              | Raise e => e = OverflowError \/ (exists h l, e = ValueError h l)
                           \/ is_Exception e = false
              end).
      unfold result.
      rewrite (set_write_buffer_limits_unfold HIGH LOW high low w Fh Fl).
      cbv zeta. destruct (_ && _); [|cbn; right; left; eauto].
      change (match result (_maybe_pause_protocol ;; _maybe_resume_protocol)
                      (set_low_water (defaulted_low HIGH LOW high low)
                         (set_high_water (defaulted_high HIGH LOW high low) w))
              with
              | Return _ => True
              | Raise e => e = OverflowError \/ (exists h l, e = ValueError h l)
                           \/ is_Exception e = false
              end).
      rewrite result_bind.
      destruct (result _maybe_pause_protocol _) eqn:R1.
      * destruct (result _maybe_resume_protocol _) eqn:R2; [exact Logic.I|].
        right; right. eapply maybe_resume_protocol_result; exact R2.
      * right; right. eapply maybe_pause_protocol_result; exact R1.
    + unfold arg_int in Fh, Fl. rewrite Fh. cbn [bind ret result fst].
      unfold result, bind, ret. rewrite Fl. cbn. now left.
Qed.

(** *** A refused connection, and peer EOF *)

(** X19. If [connection_made] raises, the exception leaves
    [_call_connection_made] before the transport is marked connected and
    before reading starts; and a final teardown that runs afterwards
    releases the handle without invoking [connection_lost]. *)
Theorem refused_connection_is_never_lost (w : World) (p : Protocol)
  (e : Exn) (exc : option Exn) :
  _protocol w = Some p ->
  _protocol_connected w = false ->
  connection_made p (log w) = Raise e ->
  let w1 := exec _call_connection_made w in
  let w2 := exec (_call_connection_lost exc) w1 in
  result _call_connection_made w = Raise e
  /\ _protocol_connected w1 = false
  /\ reading w1 = reading w
  /\ count is_lost (log w2) = count is_lost (log w1)
  /\ (_closed w = false -> _closed w2 = true).
Proof.
  intros Hp Hc Hm.
  destruct w as [pr dr co pa ef cl lo fc hw lw sv cd sz rd rq lg].
  simpl_world_in Hp. simpl_world_in Hc. simpl_world_in Hm. subst pr co.
  cbv zeta.
  assert (E : _call_connection_made
                {| _protocol := Some p; _protocol_data_received := dr;
                   _protocol_connected := false; _protocol_paused := pa;
                   _eof := ef; _closing := cl; _conn_lost := lo;
                   _flow_control_enabled := fc; _high_water := hw;
                   _low_water := lw; _server := sv; _closed := cd;
                   write_buffer_size := sz; reading := rd; ready := rq;
                   log := lg |}
              = (Raise e,
                 {| _protocol := Some p; _protocol_data_received := dr;
                    _protocol_connected := false; _protocol_paused := pa;
                    _eof := ef; _closing := cl; _conn_lost := lo;
                    _flow_control_enabled := fc; _high_water := hw;
                    _low_water := lw; _server := sv; _closed := cd;
                    write_buffer_size := sz; reading := rd; ready := rq;
                    log := lg ++ [ConnectionMade] |})).
  { unfold_methods. cbv beta iota. rewrite Hm. reflexivity. }
  unfold exec, result. rewrite E. cbn [fst snd].
  repeat split.
  - rewrite call_connection_lost_run. simpl_world.
    destruct cd; [reflexivity|]. cbn [snd].
    rewrite torn_down_counts.
    rewrite (teardown_callback_lost exc). simpl_world. cbn [andb bump].
    match goal with
    | |- context [teardown_cleanup ?x] =>
        pose proof (teardown_cleanup_counts x) as (Q & _)
    end.
    rewrite Q. lia.
  - simpl_world. intros ->. rewrite call_connection_lost_run. reflexivity.
Qed.

(** X20. Peer EOF ends reading.  On a transport whose handle is not released
    and which, if closing, is not reading: when the EOF hook returns, the
    transport is not reading, whether the protocol asked to keep it open
    (then it is only paused) or not (then it is closing, as after
    [close()]); the hook itself never invokes [connection_lost]. *)
Theorem peer_eof_stops_reading (w : World) :
  _closed w = false ->
  (_closing w = true -> reading w = false) ->
  result _on_eof w = Return tt ->
  let w' := exec _on_eof w in
  reading w' = false
  /\ count is_lost (log w') = count is_lost (log w)
  /\ match _protocol w with
     | Some p =>
         match eof_received p (log w) with
         | Return true => _closing w' = _closing w
         | _ => _closing w' = true
         end
     | None => True
     end.
Proof.
  intros Hc Hq.
  destruct w as [pr dr co pa ef cl lo fc hw lw sv cd sz rd rq lg].
  simpl_world_in Hc. simpl_world_in Hq. subst cd. cbv zeta.
  destruct pr as [p|]; [|discriminate].
  unfold_methods. cbv beta iota.
  destruct (eof_received p lg) as [[|]|e]; cbv beta iota;
    [| |discriminate]; intros _.
  - rewrite !count_snoc. cbn [is_lost bump]. repeat split; lia.
  - destruct cl; cbv beta iota.
    + rewrite !count_snoc. cbn [is_lost bump].
      repeat split; [now apply Hq|lia].
    + destruct (sz =? 0)%N; cbv beta iota;
        rewrite !count_snoc; cbn [is_lost bump]; repeat split; lia.
Qed.

(** *** The further properties at concrete transports *)

Lemma thresholds_stay_ordered_witness :
  HIGH_64K >= LOW_16K
  /\ LOW_16K >= 0
  /\ _high_water (run HIGH_64K LOW_16K busy_life (__cinit__ HIGH_64K LOW_16K))
     >= _low_water (run HIGH_64K LOW_16K busy_life (__cinit__ HIGH_64K LOW_16K))
  /\ _low_water (run HIGH_64K LOW_16K busy_life (__cinit__ HIGH_64K LOW_16K))
     >= 0.
Proof.
  assert (A : HIGH_64K >= LOW_16K) by (unfold HIGH_64K, LOW_16K; lia).
  assert (B : LOW_16K >= 0) by (unfold LOW_16K; lia).
  split; [exact A|]. split; [exact B|].
  exact (thresholds_stay_ordered HIGH_64K LOW_16K busy_life A B).
Defined.

(** X2 at a concrete transport. *)
Lemma limits_set_then_get_witness :
  set_write_buffer_limits HIGH_64K LOW_16K (Some 100) (Some 25) established
  = (Return tt, set_low_water 25 (set_high_water 100 established))
  /\ result get_write_buffer_limits
       (exec (set_write_buffer_limits HIGH_64K LOW_16K (Some 100) (Some 25))
          established)
     = Return (25, 100).
Proof.
  assert (A : 100 >= 25) by lia.
  assert (B : 25 >= 0) by lia.
  assert (P : pause_due (set_low_water 25 (set_high_water 100 established))
              = false) by (vm_compute; reflexivity).
  assert (R : resume_due (set_low_water 25 (set_high_water 100 established))
              = false) by (vm_compute; reflexivity).
  exact (limits_set_then_get HIGH_64K LOW_16K 100 25 established
           eq_refl eq_refl A B P R).
Defined.

(** X3 at a concrete transport. *)
Lemma writelines_enqueues_everything_witness :
  result (writelines three_buffers) established = Return tt
  /\ write_buffer_size (exec (writelines three_buffers) established)
     = (write_buffer_size established + total_length three_buffers)%N
  /\ count is_hwrite (log (exec (writelines three_buffers) established))
     = (count is_hwrite (log established) + nonempty_count three_buffers)%nat
  /\ count is_callback (log (exec (writelines three_buffers) established))
     = count is_callback (log established).
Proof.
  assert (A : _eof established = false) by (vm_compute; reflexivity).
  assert (B : _conn_lost established = 0%N) by (vm_compute; reflexivity).
  assert (C : Z.of_N (write_buffer_size established
                      + total_length three_buffers)
              <= _high_water established)
    by (vm_compute; intro X; discriminate X).
  exact (writelines_enqueues_everything three_buffers established A B
           (or_intror (or_intror C))).
Defined.

(** X4 at a concrete transport. *)
Lemma writelines_after_loss_only_counts_witness :
  writelines three_buffers aborted
  = (Return tt,
     set_conn_lost
       (_conn_lost aborted + N.of_nat (nonempty_count three_buffers))%N
       aborted).
Proof.
  assert (A : _eof aborted = false) by (vm_compute; reflexivity).
  assert (B : (0 < _conn_lost aborted)%N) by (vm_compute; reflexivity).
  assert (C : (_conn_lost aborted + N.of_nat (nonempty_count three_buffers)
               < 2 ^ 32)%N) by (vm_compute; reflexivity).
  exact (writelines_after_loss_only_counts three_buffers aborted A B C).
Defined.

(** X6 at a concrete transport. *)
Lemma flags_never_go_back_witness :
  _closing (step HIGH_64K LOW_16K aborted (Write one_byte)) = true.
Proof.
  assert (A : _closing aborted = true) by (vm_compute; reflexivity).
  exact (proj1 (flags_never_go_back HIGH_64K LOW_16K (Write one_byte) aborted)
           A).
Defined.

(** X7 at a concrete transport. *)
Lemma teardown_scheduled_at_most_once_witness :
  (count is_lost_schedule
     (log (run HIGH_64K LOW_16K close_abort_fatal
             (__cinit__ HIGH_64K LOW_16K))) <= 1)%nat
  /\ _closing
       (run HIGH_64K LOW_16K close_abort_fatal (__cinit__ HIGH_64K LOW_16K))
     = true.
Proof.
  assert (A : (0 <? _conn_lost
                      (run HIGH_64K LOW_16K close_abort_fatal
                         (__cinit__ HIGH_64K LOW_16K)))%N = true)
    by (vm_compute; reflexivity).
  assert (B : (N.of_nat (writes_in close_abort_fatal) < 2 ^ 32 - 1)%N)
    by (vm_compute; reflexivity).
  destruct (teardown_scheduled_at_most_once HIGH_64K LOW_16K
              close_abort_fatal B) as [C D].
  split; [exact C|exact (D A)].
Defined.

(** X8 at a concrete transport. *)
Lemma no_write_reaches_handle_after_loss_witness :
  (0 < _conn_lost (run HIGH_64K LOW_16K writes_after_loss aborted))%N
  /\ count is_hwrite (log (run HIGH_64K LOW_16K writes_after_loss aborted))
     = count is_hwrite (log aborted)
  /\ (write_buffer_size (run HIGH_64K LOW_16K writes_after_loss aborted)
      <= write_buffer_size aborted)%N.
Proof.
  assert (A : (0 < _conn_lost aborted)%N) by (vm_compute; reflexivity).
  assert (B : _closing aborted = true) by (vm_compute; reflexivity).
  assert (C : (_conn_lost aborted + N.of_nat (writes_in writes_after_loss)
               < 2 ^ 32)%N) by (vm_compute; reflexivity).
  exact (no_write_reaches_handle_after_loss HIGH_64K LOW_16K
           writes_after_loss aborted A B C).
Defined.

(** X9 at a concrete transport. *)
Lemma unbound_transport_makes_no_callback_witness :
  count is_callback
    (log (run HIGH_64K LOW_16K
            [On_read one_byte; On_eof; Write one_byte; On_write;
             Set_write_buffer_limits (Some 0) (Some 0); Run_ready]
            torn))
  = count is_callback (log torn).
Proof.
  assert (A : _protocol torn = None) by (vm_compute; reflexivity).
  assert (B : _protocol_data_received torn = None)
    by (vm_compute; reflexivity).
  exact (proj1 (unbound_transport_makes_no_callback HIGH_64K LOW_16K
                  [On_read one_byte; On_eof; Write one_byte; On_write;
                   Set_write_buffer_limits (Some 0) (Some 0); Run_ready]
                  torn A B eq_refl)).
Defined.

(** X11 at a concrete transport. *)
Lemma closing_transport_never_reads_witness :
  reading
    (run HIGH_64K LOW_16K
       [Close; Resume_reading; Write one_byte; On_eof; Run_ready]
       established)
  = false.
Proof.
  assert (A : _closing established = true -> reading established = false)
    by (intros H; vm_compute in H; discriminate H).
  assert (B : pending_made (ready established) = 0%nat)
    by (vm_compute; reflexivity).
  assert (C : _closing
                (run HIGH_64K LOW_16K
                   [Close; Resume_reading; Write one_byte; On_eof; Run_ready]
                   established) = true)
    by (vm_compute; reflexivity).
  exact (closing_transport_never_reads HIGH_64K LOW_16K
           [Close; Resume_reading; Write one_byte; On_eof; Run_ready]
           established A B eq_refl C).
Defined.

(** X12 at a concrete transport. *)
Lemma pause_and_resume_alternate_witness :
  count is_pause (log (run HIGH_64K LOW_16K flood_drain_flood bound_fresh))
  = (count is_resume (log (run HIGH_64K LOW_16K flood_drain_flood bound_fresh))
     + bump (_protocol_paused
               (run HIGH_64K LOW_16K flood_drain_flood bound_fresh)))%nat.
Proof.
  assert (A : _closed (run HIGH_64K LOW_16K flood_drain_flood
                         (exec (_set_protocol quiet_protocol)
                            (__cinit__ HIGH_64K LOW_16K))) = false)
    by (vm_compute; reflexivity).
  exact (pause_and_resume_alternate HIGH_64K LOW_16K quiet_protocol
           flood_drain_flood A).
Defined.

(** X13 at a concrete transport. *)
Lemma listener_count_never_negative_witness :
  1 <= active_count 3%nat
         (log (run HIGH_64K LOW_16K (Do_set_server 3%nat :: connect)
                 (__cinit__ HIGH_64K LOW_16K))).
Proof.
  assert (A : _server (run HIGH_64K LOW_16K (Do_set_server 3%nat :: connect)
                         (__cinit__ HIGH_64K LOW_16K)) = Some 3%nat)
    by (vm_compute; reflexivity).
  exact (proj2 (listener_count_never_negative HIGH_64K LOW_16K
                  (Do_set_server 3%nat :: connect) 3%nat) A).
Defined.

(** X14 at a concrete transport. *)
Lemma close_and_abort_compose_witness :
  exec abort (exec close (scenario (connect ++ [Write one_byte])))
  = exec abort (scenario (connect ++ [Write one_byte])).
Proof.
  assert (A : (0 <? _conn_lost (scenario (connect ++ [Write one_byte])))%N
              = true ->
              _closing (scenario (connect ++ [Write one_byte])) = true)
    by (intros H; vm_compute in H; discriminate H).
  destruct (close_and_abort_compose (scenario (connect ++ [Write one_byte])) A)
    as (_ & _ & _ & E & _).
  exact E.
Defined.

(** X19 at a concrete transport. *)
Lemma refused_connection_is_never_lost_witness :
  result _call_connection_made refused = Raise (ApplicationError 1)
  /\ _protocol_connected (exec _call_connection_made refused) = false
  /\ reading (exec _call_connection_made refused) = reading refused
  /\ count is_lost
       (log (exec (_call_connection_lost None)
               (exec _call_connection_made refused)))
     = count is_lost (log (exec _call_connection_made refused))
  /\ (_closed refused = false ->
      _closed (exec (_call_connection_lost None)
                 (exec _call_connection_made refused)) = true).
Proof.
  assert (A : _protocol refused = Some refusing_protocol)
    by (vm_compute; reflexivity).
  assert (B : _protocol_connected refused = false)
    by (vm_compute; reflexivity).
  assert (C : connection_made refusing_protocol (log refused)
              = Raise (ApplicationError 1)) by reflexivity.
  exact (refused_connection_is_never_lost refused refusing_protocol
           (ApplicationError 1) None A B C).
Defined.

(** X20 at a concrete transport. *)
Lemma peer_eof_stops_reading_witness :
  reading (exec _on_eof established) = false
  /\ _closing (exec _on_eof established) = true.
Proof.
  assert (A : _closed established = false) by (vm_compute; reflexivity).
  assert (B : _closing established = true -> reading established = false)
    by (intros H; vm_compute in H; discriminate H).
  assert (C : result _on_eof established = Return tt)
    by (vm_compute; reflexivity).
  destruct (peer_eof_stops_reading established A B C) as (R & _ & K).
  split; [exact R|].
  assert (P : _protocol established = Some quiet_protocol)
    by (vm_compute; reflexivity).
  rewrite P in K. exact K.
Defined.
